(** * YCSB-runner: the orchestration loop of [runner.py]

    A shallow embedding of [src/runner/runner.py] (class [Runner]) and the
    properties of its sweep loop, its config-section processing, its
    statistics extraction and its hook dispatch.

    Python values are modelled as follows.
    - [int] is [Z]; [str] is [string], read as ASCII text: the case and
      whitespace functions below act on the ASCII range only.
    - A [dict] with string keys is a [gmap string _]; a dict that is only
      iterated ([const.OPTION_KEYS], [const.STAT_REGEXPS]) is the list of its
      items in insertion order.
    - An exception is a value of [exn]; a call that may raise returns a [res].
    - The modules [constants], [stats] and [dbsystem] that [runner.py]
      imports are not at hand: their constants are parameters of the
      sections below, and the classes [Statistics] and [DbSystem] are
      modelled by the interface the runner uses. *)

From Stdlib Require Import ZArith Lia Ascii String.
From stdpp Require Import gmap strings list fin_maps pretty.

Open Scope string_scope.
Open Scope list_scope.
Open Scope Z_scope.

(** ** Python strings (ASCII) *)

Module PyStr.

(** [str.isspace] on one ASCII character: TAB..CR, FS..US and space. *)
Definition is_space (a : ascii) : bool :=
  let n := nat_of_ascii a in
  ((9 <=? n) && (n <=? 13) || (28 <=? n) && (n <=? 32))%nat.

Definition upper_ascii (a : ascii) : ascii :=
  let n := nat_of_ascii a in
  if ((97 <=? n) && (n <=? 122))%nat then ascii_of_nat (n - 32) else a.

Definition lower_ascii (a : ascii) : ascii :=
  let n := nat_of_ascii a in
  if ((65 <=? n) && (n <=? 90))%nat then ascii_of_nat (n + 32) else a.

Fixpoint map_chars (f : ascii → ascii) (s : string) : string :=
  match s with
  | EmptyString => EmptyString
  | String a s' => String (f a) (map_chars f s')
  end.

(** [s.upper()] and [s.lower()]. *)
Definition upper (s : string) : string := map_chars upper_ascii s.
Definition lower (s : string) : string := map_chars lower_ascii s.

(** [s.lstrip()], [s.rstrip()] and [s.strip()] with no argument. *)
Fixpoint lstrip (s : string) : string :=
  match s with
  | EmptyString => EmptyString
  | String a s' => if is_space a then lstrip s' else s
  end.

Fixpoint rstrip (s : string) : string :=
  match s with
  | EmptyString => EmptyString
  | String a s' =>
      match rstrip s' with
      | EmptyString => if is_space a then EmptyString else String a EmptyString
      | r => String a r
      end
  end.

Definition strip (s : string) : string := rstrip (lstrip s).

(** [s.split(c)] for a one-character separator: never the empty list. *)
Fixpoint split (c : ascii) (s : string) : list string :=
  match s with
  | EmptyString => [EmptyString]
  | String a s' =>
      if Ascii.eqb a c then EmptyString :: split c s'
      else match split c s' with
           | h :: t => String a h :: t
           | [] => [String a EmptyString]
           end
  end.

(** [sep.join(l)]. *)
Fixpoint join (sep : string) (l : list string) : string :=
  match l with
  | [] => EmptyString
  | [x] => x
  | x :: l' => x +:+ sep +:+ join sep l'
  end.

End PyStr.

(** ** Values, exceptions and results *)

(** The Python values the runner stores in its dictionaries. [VOther] is a
    value the model does not look into (a float, say), named by its
    printed form. *)
Inductive pyval : Type :=
| VNone
| VInt (z : Z)
| VBool (b : bool)
| VStr (s : string)
| VOther (repr : string).

#[global] Instance pyval_eq_dec : EqDecision pyval.
Proof. solve_decision. Defined.

(** A raised exception: its class name and its message. *)
Inductive exn : Type := Exn (class msg : string).

#[global] Instance exn_eq_dec : EqDecision exn.
Proof. solve_decision. Defined.

(** The result of running a piece of code: it returns, it raises, or (for
    the model of an unbounded loop) the fuel ran out before it finished. *)
Inductive res (A : Type) : Type :=
| Ok (a : A)
| Raised (e : exn)
| OutOfFuel.
Arguments Ok {A} a.
Arguments Raised {A} e.
Arguments OutOfFuel {A}.

Definition is_ok {A} (r : res A) : bool :=
  match r with Ok _ => true | _ => false end.

Definition res_bind {A B} (r : res A) (f : A → res B) : res B :=
  match r with
  | Ok a => f a
  | Raised e => Raised e
  | OutOfFuel => OutOfFuel
  end.

(** ** Compiled regular expressions

    A compiled pattern is used through two methods only. [re_search s] is
    [regex.search(s)]: [None] when nothing matches, otherwise the tuple
    [groups()] of the first match, where a group that took no part in the
    match is [None]. [re_sub repl s] is [regex.sub(repl, s)]. *)
Record regex : Type := Regex {
  re_search : string → option (list (option string));
  re_sub : string → string → string
}.

(** Modelled from the spec: the class [Statistics] of [stats.py] is
    absent. One row of extracted statistics maps a field name to its value
    and a field that was never set is absent from the map (the unset
    representation). Calling the class with the entries of a dictionary as
    keyword arguments builds the row from that dictionary; [row.f = v] sets
    field [f]. *)
Abbreviation Statistics := (gmap string pyval).

Definition set_attr (f : string) (v : pyval) (row : Statistics) : Statistics :=
  <[f := v]> row.

(** ** Statistics extraction: [Runner.get_re_match], [Runner.extract_stats] *)

(** [get_re_match]: the contents of the first capturing group of the first
    match, [None] when there is no match or the pattern has no group.
    [res.group(1)] is [None] as well when group 1 took no part. *)
Definition get_re_match (rx : regex) (s : string) : option string :=
  match re_search rx s with
  | Some (g1 :: _) => g1
  | Some [] => None
  | None => None
  end.

Section ExtractStats.

(** [const.STAT_REGEXPS]: metric name and pattern, in the dict's order. *)
Variable STAT_REGEXPS : list (string * regex).
(** [const.TRACKED_STATS]: metric name to coercion function; a coercion
    may raise ([int], [float] on malformed text). *)
Variable TRACKED_STATS : gmap string (string → res pyval).

(** [const.TRACKED_STATS[k](m)]: [KeyError] when [k] has no coercion. *)
Definition coerce (k m : string) : res pyval :=
  match TRACKED_STATS !! k with
  | Some f => f m
  | None => Raised (Exn "KeyError" k)
  end.

(** The [for k, regex in const.STAT_REGEXPS.items()] loop, threading the
    dictionary [stats]. *)
Fixpoint extract_loop (items : list (string * regex)) (stdout : string)
    (stats : gmap string pyval) : res (gmap string pyval) :=
  match items with
  | [] => Ok stats
  | (k, rx) :: items' =>
      match get_re_match rx stdout with
      | Some m =>
          res_bind (coerce k m) (λ v,
            extract_loop items' stdout (<[k := v]> stats))
      | None => extract_loop items' stdout stats
      end
  end.

Definition extract_stats (stdout : string) : res Statistics :=
  extract_loop STAT_REGEXPS stdout ∅.

End ExtractStats.

(** ** The config source: [configparser.ConfigParser]

    The parser is read through [sections()], [parser[section]], [get],
    [getint], [getboolean] and the [get] of a section. It is modelled by
    the sections in file order, each with its flat option map: the options
    of the section and the defaults ([const.OPTION_DEFAULTS]) under their
    names, with their values as they are written. A value is interpolated
    when it is read: [ConfigParser] is created without an [interpolation]
    argument, so it uses [BasicInterpolation]. *)
Module ConfigParser.

Definition t : Type := list (string * gmap string string).

Definition sections (cp : t) : list string := fst <$> cp.

Fixpoint find_section (cp : t) (section : string) : option (gmap string string) :=
  match cp with
  | [] => None
  | (name, opts) :: cp' =>
      if decide (name = section) then Some opts else find_section cp' section
  end.

(** [parser[section]]. *)
Definition getitem (cp : t) (section : string) : res (gmap string string) :=
  match find_section cp section with
  | Some opts => Ok opts
  | None => Raised (Exn "KeyError" section)
  end.

(** [MAX_INTERPOLATION_DEPTH]. *)
Definition MAX_INTERPOLATION_DEPTH : nat := 10.

(** ["%" in v]. *)
Fixpoint contains_percent (v : string) : bool :=
  match v with
  | EmptyString => false
  | String a v' => Ascii.eqb a "%" || contains_percent v'
  end.

Definition bad_reference : exn :=
  Exn "InterpolationSyntaxError" "bad interpolation variable reference".

Definition bad_percent : exn :=
  Exn "InterpolationSyntaxError" "'%' must be followed by '%' or '('".

Section Interpolation.

(** The options a reference may name (those of the section and the
    defaults), and the interpolation of a value one level deeper. *)
Variable map : gmap string string.
Variable deeper : string → res string.

(** The loop of [BasicInterpolation._interpolate_some] on the text
    [rest]: every [%%] is replaced by one percent sign and every reference
    [%(name)s] by the value of the option [name], itself interpolated one
    level deeper when it holds a percent sign. [scan] copies the text up
    to the next percent sign and looks at the character after it; [key]
    reads a reference as the pattern [_KEYCRE] does: a name of one
    character or more, none of them a closing parenthesis, then [)s]. An
    error is raised where the source raises it, going from left to
    right. *)
Fixpoint scan (rest : string) {struct rest} : res string :=
  match rest with
  | EmptyString => Ok EmptyString
  | String a rest' =>
      if Ascii.eqb a "%" then
        match rest' with
        | EmptyString => Raised bad_percent
        | String c rest'' =>
            if Ascii.eqb c "%" then
              res_bind (scan rest'') (λ s, Ok (String "%" s))
            else if Ascii.eqb c "(" then key rest'' EmptyString
            else Raised bad_percent
        end
      else res_bind (scan rest') (λ s, Ok (String a s))
  end
with key (rest : string) (var : string) {struct rest} : res string :=
  match rest with
  | EmptyString => Raised bad_reference
  | String a rest' =>
      if Ascii.eqb a ")" then
        match var, rest' with
        | String _ _, String c rest'' =>
            if Ascii.eqb c "s" then
              match map !! PyStr.lower var with
              | None => Raised (Exn "InterpolationMissingOptionError" var)
              | Some v =>
                  res_bind (if contains_percent v then deeper v else Ok v)
                    (λ s1, res_bind (scan rest'') (λ s2, Ok (s1 +:+ s2)))
              end
            else Raised bad_reference
        | _, _ => Raised bad_reference
        end
      else key rest' (var +:+ String a EmptyString)
  end.

End Interpolation.

(** [BasicInterpolation._interpolate_some]. [levels] counts the nested
    references still allowed: the call at depth [d] of the source has
    [levels = MAX_INTERPOLATION_DEPTH + 1 - d], and the call at a depth
    over the maximum raises. *)
Fixpoint interpolate_some (map : gmap string string) (levels : nat)
    : string → res string :=
  match levels with
  | O => λ rest, Raised (Exn "InterpolationDepthError" rest)
  | S levels' => scan map (interpolate_some map levels')
  end.

(** [BasicInterpolation.before_get]. *)
Definition before_get (map : gmap string string) (value : string) : res string :=
  interpolate_some map MAX_INTERPOLATION_DEPTH value.

(** [parser.get(section, option)]: the option is looked up under its
    lowercased name ([optionxform]) and its value is interpolated. *)
Definition get (cp : t) (section option : string) : res string :=
  match find_section cp section with
  | None => Raised (Exn "NoSectionError" section)
  | Some opts =>
      match opts !! PyStr.lower option with
      | Some v => before_get opts v
      | None => Raised (Exn "NoOptionError" (PyStr.lower option))
      end
  end.

Definition digit_of (a : ascii) : option Z :=
  let n := nat_of_ascii a in
  if ((48 <=? n) && (n <=? 57))%nat then Some (Z.of_nat (n - 48)) else None.

(** Decimal digits, a single underscore allowed between two digits. *)
Fixpoint parse_digits (s : string) (acc : Z) (after_digit : bool) : option Z :=
  match s with
  | EmptyString => if after_digit then Some acc else None
  | String a s' =>
      match digit_of a with
      | Some d => parse_digits s' (10 * acc + d) true
      | None =>
          if Ascii.eqb a "_" && after_digit
          then parse_digits s' acc false
          else None
      end
  end.

(** [int(s)] on a string: surrounding whitespace, an optional sign. *)
Definition py_int (s : string) : res Z :=
  let body := PyStr.strip s in
  let parsed :=
    match body with
    | String "+" d => parse_digits d 0 false
    | String "-" d => Z.opp <$> parse_digits d 0 false
    | d => parse_digits d 0 false
    end in
  match parsed with
  | Some z => Ok z
  | None => Raised (Exn "ValueError" s)
  end.

(** [parser.getint(section, option)]. *)
Definition getint (cp : t) (section option : string) : res Z :=
  res_bind (get cp section option) py_int.

(** The table [BOOLEAN_STATES], looked up on the lowercased value. *)
Definition convert_to_boolean (v : string) : res bool :=
  let l := PyStr.lower v in
  if bool_decide (l ∈ ["1"; "yes"; "true"; "on"]) then Ok true
  else if bool_decide (l ∈ ["0"; "no"; "false"; "off"]) then Ok false
  else Raised (Exn "ValueError" v).

(** [parser.getboolean(section, option)]. *)
Definition getboolean (cp : t) (section option : string) : res bool :=
  res_bind (get cp section option) convert_to_boolean.

(** How a text is written in a value so as to be read back as it is:
    with every percent sign doubled. *)
Fixpoint escaped (s : string) : string :=
  match s with
  | EmptyString => EmptyString
  | String a s' =>
      if Ascii.eqb a "%" then String "%" (String "%" (escaped s'))
      else String a (escaped s')
  end.

(** How the value of another option is referred to in a value, and the
    names that can be referred to: those of one character or more without
    a closing parenthesis. *)
Definition reference (name : string) : string := "%(" +:+ name +:+ ")s".

Fixpoint no_closing (name : string) : bool :=
  match name with
  | EmptyString => true
  | String a name' => negb (Ascii.eqb a ")") && no_closing name'
  end.

Definition is_name (name : string) : bool :=
  match name with
  | EmptyString => false
  | String _ _ => no_closing name
  end.

(** [section_proxy.get(k)]: the parser's [get] with [None] as fallback,
    so [None] for a missing key and the interpolated value otherwise. *)
Definition proxy_get (config_section : gmap string string) (k : string)
    : res pyval :=
  match config_section !! PyStr.lower k with
  | Some v => res_bind (before_get config_section v) (λ s, Ok (VStr s))
  | None => Ok VNone
  end.

End ConfigParser.

(** ** Code that prints and may raise

    The config processing prints diagnostics and may raise: a computation
    is the list of lines printed, in order, with its result. *)
Definition P (A : Type) : Type := (list string * res A)%type.

#[global] Instance P_ret : MRet P := λ A a, ([], Ok a).
#[global] Instance P_bind : MBind P := λ A B f m,
  match m.2 with
  | Ok a => (m.1 ++ (f a).1, (f a).2)
  | Raised e => (m.1, Raised e)
  | OutOfFuel => (m.1, OutOfFuel)
  end.

Definition print (line : string) : P unit := ([line], Ok tt).
Definition lift_res {A} (r : res A) : P A := ([], r).

(** The declared type of a recognized option, as the runner tests it:
    [int], [bool], [str], another callable, or anything else. *)
Inductive opt_type : Type :=
| TInt
| TBool
| TStr
| TCallable (f : string → res pyval)
| TInvalid.

(** Modelled from the spec: the class [DbSystem] of [dbsystem.py] is
    absent. A benchmark target is the four arguments its constructor is
    called with (display name, typed configuration, label, extraneous
    config). The label is a [pyval]: [groups(0)] puts the integer 0 for a
    group that took no part in the match. *)
Record DbSystem : Type := mkDbSystem {
  dbname : string;
  config : gmap string pyval;
  label : pyval;
  extraneous_config : gmap string pyval
}.

#[global] Instance DbSystem_eq_dec : EqDecision DbSystem.
Proof. solve_decision. Defined.

Section ProcessSections.

(** [const.OPTION_KEYS]: recognized option and its declared type. *)
Variable OPTION_KEYS : list (string * opt_type).
(** [const.SUPPORTED_DBS]: the names of the supported target kinds. *)
Variable SUPPORTED_DBS : list string.
(** [const.RE_DBNAME_LABEL]: the pattern of a label inside a name. *)
Variable RE_DBNAME_LABEL : regex.
(** [self.__config]. *)
Variable cp : ConfigParser.t.

(** The loop of [__process_runner_config_keys], threading [config]. *)
Fixpoint config_keys_loop (items : list (string * opt_type)) (section : string)
    (config : gmap string pyval) : P (gmap string pyval) :=
  match items with
  | [] => mret config
  | (k, t) :: items' =>
      match t with
      | TInt =>
          v ← lift_res (ConfigParser.getint cp section k);
          config_keys_loop items' section (<[k := VInt v]> config)
      | TBool =>
          print ("getting bool " +:+ k);;
          v ← lift_res (ConfigParser.getboolean cp section k);
          config_keys_loop items' section (<[k := VBool v]> config)
      | TStr =>
          v ← lift_res (ConfigParser.get cp section k);
          config_keys_loop items' section (<[k := VStr v]> config)
      | TCallable f =>
          s ← lift_res (ConfigParser.get cp section k);
          v ← lift_res (f s);
          config_keys_loop items' section (<[k := v]> config)
      | TInvalid =>
          print ("Warning: skipping key " +:+ k +:+ " with invalid type");;
          config_keys_loop items' section config
      end
  end.

Definition process_runner_config_keys (section : string) : P (gmap string pyval) :=
  config_keys_loop OPTION_KEYS section ∅.

(** The dict comprehension of [__extraneous_config]: the value of every
    key is read in turn, and the first read that raises ends it. *)
Fixpoint comprehension (config_section : gmap string string)
    (keys : list string) (d : gmap string pyval) : res (gmap string pyval) :=
  match keys with
  | [] => Ok d
  | k :: keys' =>
      res_bind (ConfigParser.proxy_get config_section k)
        (λ v, comprehension config_section keys' (<[k := v]> d))
  end.

(** [__extraneous_config]. The keys of the set difference are visited in
    the order the set gives them, here that of [elements]. *)
Definition extraneous_config_of (config_section : gmap string string)
    : res (gmap string pyval) :=
  let config_keys : gset string := dom config_section in
  let option_keys : gset string := list_to_set (fst <$> OPTION_KEYS) in
  let extraneous_keys := elements (config_keys ∖ option_keys) in
  comprehension config_section extraneous_keys ∅.

(** The label search of one name: the label and the name without it.
    [label, = label.groups(0)] raises unless there is exactly one group. *)
Definition split_label (name : string) : res (pyval * string) :=
  match re_search RE_DBNAME_LABEL name with
  | Some [g] =>
      Ok (match g with Some l => VStr l | None => VInt 0 end,
          re_sub RE_DBNAME_LABEL "" name)
  | Some _ => Raised (Exn "ValueError" "wrong number of values to unpack")
  | None => Ok (VStr "", name)
  end.

Definition supported (name : string) : bool :=
  bool_decide (PyStr.lower name ∈ SUPPORTED_DBS).

Definition invalid_database_line (name : string) : string :=
  "Invalid database found: " +:+ name +:+ ". Only (" +:+
  PyStr.join "," SUPPORTED_DBS +:+ ") are supported. Skipping...".

(** The [for dbname in section] loop of [__process_dbs], threading
    [db_instances]. *)
Fixpoint dbs_loop (names : list string) (cfg extraneous : gmap string pyval)
    (db_instances : list DbSystem) : P (list DbSystem) :=
  match names with
  | [] => mret db_instances
  | name :: names' =>
      '(lbl, bare) ← lift_res (split_label name);
      if supported bare
      then dbs_loop names' cfg extraneous
             (db_instances ++ [mkDbSystem bare cfg lbl extraneous])
      else print (invalid_database_line bare);;
           dbs_loop names' cfg extraneous db_instances
  end.

(** The names declared by a section heading. *)
Definition section_names (section : string) : list string :=
  PyStr.strip <$> PyStr.split "," section.

Definition process_dbs (section : string) (cfg : gmap string pyval)
    : P (list DbSystem) :=
  config_section ← lift_res (ConfigParser.getitem cp section);
  extraneous ← lift_res (extraneous_config_of config_section);
  dbs_loop (section_names section) cfg extraneous [].

(** The loop of [__process_sections], threading [dbs]. *)
Fixpoint sections_loop (sections : list string) (dbs : list DbSystem)
    : P (list DbSystem) :=
  match sections with
  | [] => mret dbs
  | section :: sections' =>
      cfg ← process_runner_config_keys section;
      new ← process_dbs section cfg;
      sections_loop sections' (dbs ++ new)
  end.

Definition process_sections : P (list DbSystem) :=
  sections_loop (ConfigParser.sections cp) [].

(** *** The section processing as the spec words it

    The label of a name is the text its label marker captures, the empty
    string when the name has no marker; the bare name is the name with the
    marker removed. A section yields one target per name whose bare name
    is of a supported kind, all with the section's typed configuration and
    extraneous config, and one diagnostic per other name. *)
Definition label_of (name : string) : pyval :=
  match re_search RE_DBNAME_LABEL name with
  | Some (Some l :: _) => VStr l
  | Some _ => VInt 0
  | None => VStr ""
  end.

Definition bare_name (name : string) : string :=
  match re_search RE_DBNAME_LABEL name with
  | Some _ => re_sub RE_DBNAME_LABEL "" name
  | None => name
  end.

Definition spec_targets (section : string) (cfg extraneous : gmap string pyval)
    : list DbSystem :=
  (λ name, mkDbSystem (bare_name name) cfg (label_of name) extraneous)
    <$> filter (λ name, supported (bare_name name)) (section_names section).

Definition spec_diagnostics (section : string) : list string :=
  (λ name, invalid_database_line (bare_name name))
    <$> filter (λ name, ¬ supported (bare_name name)) (section_names section).

(** A recognized option is well formed in a section when it is present
    and its declared type accepts its text. *)
Definition option_ok (section : string) (item : string * opt_type) : bool :=
  match item.2 with
  | TInt => is_ok (ConfigParser.getint cp section item.1)
  | TBool => is_ok (ConfigParser.getboolean cp section item.1)
  | TStr => is_ok (ConfigParser.get cp section item.1)
  | TCallable f => is_ok (res_bind (ConfigParser.get cp section item.1) f)
  | TInvalid => true
  end.

(** Option names are stored by the parser in lower case: it applies
    [optionxform] to every name it reads. *)
Definition stored_lowercase (config_section : gmap string string) : Prop :=
  map_Forall (λ k _, PyStr.lower k = k) config_section.

(** The claim that the extraneous config of every section maps each of
    its keys to the string written for it in the section. *)
Definition extraneous_values_are_raw : Prop :=
  ∀ config_section : gmap string string,
    stored_lowercase config_section →
    ∃ m, extraneous_config_of config_section = Ok m ∧
         ∀ k, m !! k =
                if decide (k ∈ fst <$> OPTION_KEYS) then None
                else VStr <$> config_section !! k.

End ProcessSections.

(** ** The world the sweep runs in

    [Runner.run] talks to the outside through the target's methods, the
    file copy, the external process and the registered hooks. Each such
    call is an event; the trace of a run is the list of its events, in
    order. Targets are named by their position in [self.dbs]. *)

(** A positional argument passed to a hook. *)
Inductive arg : Type :=
| AInt (z : Z)
| ADb (i : nat).

(** A file path: the runner's config path, a target's base workload path,
    or what [db.makefpath(template)] answered. *)
Inductive path : Type :=
| ConfigPath
| BaseWorkloadPath (i : nat)
| MadePath (i : nat) (template : string).

(** An argument list for the external process, as the target built it. *)
Inductive cmd : Type :=
| YcsbLoad (i : nat)
| YcsbRun (i : nat) (mpl : Z).

Inductive event : Type :=
| EvRunHooks (location : string) (args : list arg) (* __run_hooks entered *)
| EvHook (h : nat) (args : list arg)        (* one registered callback called *)
| EvMakeFPath (i : nat) (template : string) (* db.makefpath(template) *)
| EvCopyFile (src dst : path)               (* copyfile(src, dst) *)
| EvGenerateWorkload (i : nat) (dst : path) (* db.generate_workload_file(dst) *)
| EvLog (i : nat) (msg : string) (mpl trial : option Z) (* db.log(msg, ...) *)
| EvClean (i : nat)                         (* db.clean() *)
| EvCmdLoad (i : nat)                       (* db.cmd_ycsb_load() *)
| EvCmdRun (i : nat) (mpl : Z)              (* db.cmd_ycsb_run(mpl) *)
| EvPopen (c : cmd)                         (* self.__popen(c) *)
| EvRawLog (i : nat) (text : string)        (* db.raw_log(text) *)
| EvAddStats (i : nat) (row : Statistics)   (* db.stats.addstats(row) *)
| EvExportStats (i : nat) (snapshot : list Statistics) (* db.export_stats() *)
| EvCleanup (i : nat).                      (* db.cleanup() *)

#[global] Instance arg_eq_dec : EqDecision arg.
Proof. solve_decision. Defined.
#[global] Instance path_eq_dec : EqDecision path.
Proof. solve_decision. Defined.
#[global] Instance cmd_eq_dec : EqDecision cmd.
Proof. solve_decision. Defined.
#[global] Instance event_eq_dec : EqDecision event.
Proof. solve_decision. Defined.

(** What the outside does: whether a call raises, given the events before
    it, and what the external process prints. *)
Record env : Type := Env {
  raises : list event → event → option exn;
  popen_stdout : list event → cmd → string
}.

(** The state a piece of the run starts in: the events so far and every
    target's accumulated statistics ([db.stats], appended to only). *)
Record state : Type := State {
  past : list event;
  store : gmap nat (list Statistics)
}.

(** What a piece of the run did: the events it added, the statistics it
    left, and how it ended. *)
Record outcome (A : Type) : Type := Outcome {
  emitted : list event;
  store_after : gmap nat (list Statistics);
  result : res A
}.
Arguments Outcome {A} _ _ _.
Arguments emitted {A} _.
Arguments store_after {A} _.
Arguments result {A} _.

Definition M (A : Type) : Type := state → outcome A.

(** The state in which the continuation of [o] starts. *)
Definition after {A} (st : state) (o : outcome A) : state :=
  State (past st ++ emitted o) (store_after o).

#[global] Instance M_ret : MRet M := λ A a st, Outcome [] (store st) (Ok a).
#[global] Instance M_bind : MBind M := λ A B f m st,
  let o := m st in
  match result o with
  | Ok a =>
      let o' := f a (after st o) in
      Outcome (emitted o ++ emitted o') (store_after o') (result o')
  | Raised e => Outcome (emitted o) (store_after o) (Raised e)
  | OutOfFuel => Outcome (emitted o) (store_after o) OutOfFuel
  end.

(** A step of the runner's own that cannot fail, recorded in the trace. *)
Definition mark (e : event) : M unit :=
  λ st, Outcome [e] (store st) (Ok tt).

(** A result computed without touching the outside. *)
Definition lift {A} (r : res A) : M A :=
  λ st, Outcome [] (store st) r.

(** [for x in l: body(x)]. *)
Fixpoint for_each {A} (l : list A) (body : A → M unit) : M unit :=
  match l with
  | [] => mret tt
  | x :: l' => body x;; for_each l' body
  end.

(** [for i, x in enumerate(l, start)]: the targets are named by position. *)
Fixpoint for_each_from {A} (start : nat) (l : list A) (body : nat → A → M unit)
    : M unit :=
  match l with
  | [] => mret tt
  | x :: l' => body start x;; for_each_from (S start) l' body
  end.

(** [range(1, n + 1)]. *)
Definition range1 (n : Z) : list Z :=
  (λ k, Z.of_nat k) <$> seq 1 (Z.to_nat n).

Section Run.

Variable E : env.

(** [const.STAT_REGEXPS] and [const.TRACKED_STATS]. *)
Variable STAT_REGEXPS : list (string * regex).
Variable TRACKED_STATS : gmap string (string → res pyval).

(** [self.__hooks]: location name to the callbacks registered there, in
    registration order; a callback is named by a number. *)
Variable hooks : gmap string (list nat).

(** The attributes of a target the sweep reads: [db.trials],
    [db.min_mpl], [db.max_mpl], [db.inc_mpl] and [db.clean_data]. *)
Variables trials min_mpl max_mpl inc_mpl : DbSystem → Z.
Variable clean_data : DbSystem → bool.

(** A call to the outside: it is recorded, and it raises or returns. *)
Definition call (e : event) : M unit :=
  λ st, Outcome [e] (store st)
          (match raises E (past st) e with
           | Some x => Raised x
           | None => Ok tt
           end).

(** [__run_hooks(location, args...)]. *)
Definition run_hooks (location : string) (args : list arg) : M unit :=
  mark (EvRunHooks location args);;
  let location := PyStr.upper location in
  match hooks !! location with
  | Some hs => for_each hs (λ h, call (EvHook h args))
  | None => mret tt
  end.

(** [db.makefpath(template)]: the path is the target's to choose. *)
Definition makefpath (i : nat) (template : string) : M path :=
  call (EvMakeFPath i template);; mret (MadePath i template).

Definition log (i : nat) (msg : string) (mpl trial : option Z) : M unit :=
  call (EvLog i msg mpl trial).

Definition cmd_ycsb_load (i : nat) : M cmd :=
  call (EvCmdLoad i);; mret (YcsbLoad i).

Definition cmd_ycsb_run (i : nat) (mpl : Z) : M cmd :=
  call (EvCmdRun i mpl);; mret (YcsbRun i mpl).

(** [__popen(cmd)]: the process runs to its end and its whole standard
    output is returned; starting or reading it may raise. *)
Definition popen (c : cmd) : M string :=
  λ st, Outcome [EvPopen c] (store st)
          (match raises E (past st) (EvPopen c) with
           | Some x => Raised x
           | None => Ok (popen_stdout E (past st) c)
           end).

(** Modelled from the spec: the method [db.raw_log(text)] is absent. The
    runner feeds its return value to the statistics extraction, which the
    spec describes as fed with the process output, so it returns the text
    it logs. *)
Definition raw_log (i : nat) (text : string) : M string :=
  call (EvRawLog i text);; mret text.

(** Modelled from the spec: the method [db.stats.addstats(row)] is absent.
    The target's statistics are a collection with an append operation: the
    row is added at the end when the call returns. *)
Definition addstats (i : nat) (row : Statistics) : M unit :=
  λ st, match raises E (past st) (EvAddStats i row) with
        | Some x => Outcome [EvAddStats i row] (store st) (Raised x)
        | None =>
            Outcome [EvAddStats i row]
              (<[i := (store st !!! i) ++ [row]]> (store st)) (Ok tt)
        end.

(** Modelled from the spec: the method [db.export_stats()] is absent. It
    persists the statistics the target has accumulated so far, which the
    event records. *)
Definition export_stats (i : nat) : M unit :=
  λ st, call (EvExportStats i (store st !!! i)) st.

(** The first line of the sweep body. *)
Definition cleaning_msg : string := "Cleaning the database...".

(** Lines 55 to 67: clean, load, run the benchmark, and build the
    statistics row of this (trial, mpl) pair. *)
Definition measure (i : nat) (db : DbSystem) (trial mpl : Z) : M Statistics :=
  log i cleaning_msg (Some mpl) (Some trial);;
  (if clean_data db then call (EvClean i) else mret tt);;
  log i "Loading YCSB data..." (Some mpl) (Some trial);;
  (if clean_data db
   then c ← cmd_ycsb_load i; out ← popen c; raw_log i out;; mret tt
   else mret tt);;
  log i "Running YCSB workload..." (Some mpl) (Some trial);;
  c ← cmd_ycsb_run i mpl;
  out ← popen c;
  text ← raw_log i out;
  stats ← lift (extract_stats STAT_REGEXPS TRACKED_STATS text);
  let stats := set_attr "mpl" (VInt mpl) stats in
  let stats := set_attr "trial" (VInt trial) stats in
  mret stats.

(** Lines 55 to 72: the body of the MPL loop after the limit check. *)
Definition mpl_body (i : nat) (db : DbSystem) (trial mpl : Z) : M unit :=
  stats ← measure i db trial mpl;
  addstats i stats;;
  run_hooks "POST_MPL" [AInt mpl; AInt trial; ADb i];;
  log i "Exporting run stats..." None None;;
  export_stats i.

(** Lines 49 to 72: [for mpl in count(start, step)]. The iterator never
    ends by itself; [fuel] bounds the number of values drawn from it. *)
Fixpoint mpl_loop (fuel : nat) (i : nat) (db : DbSystem) (trial mpl : Z)
    : M unit :=
  match fuel with
  | O => lift OutOfFuel
  | S fuel' =>
      run_hooks "PRE_MPL" [AInt mpl; AInt trial; ADb i];;
      if bool_decide (mpl > max_mpl db) then mret tt
      else mpl_body i db trial mpl;;
           mpl_loop fuel' i db trial (mpl + inc_mpl db)
  end.

(** Lines 47 to 73: the body of the trial loop. *)
Definition trial_body (fuel : nat) (i : nat) (db : DbSystem) (trial : Z)
    : M unit :=
  run_hooks "PRE_TRIAL" [AInt trial; ADb i];;
  log i ("Starting trial " +:+ pretty trial +:+ "...") None (Some trial);;
  mpl_loop fuel i db trial (min_mpl db);;
  run_hooks "POST_TRIAL" [AInt trial; ADb i].

(** Lines 38 to 73: a target's setup and its trial loop. *)
Definition db_trials (fuel : nat) (i : nat) (db : DbSystem) : M unit :=
  run_hooks "PRE_DB" [ADb i];;
  dst ← makefpath i "config-{}-{}.ini";
  call (EvCopyFile ConfigPath dst);;
  dst ← makefpath i "workload-{}-{}";
  call (EvCopyFile (BaseWorkloadPath i) dst);;
  dst ← makefpath i "workload-generated-{}-{}";
  call (EvGenerateWorkload i dst);;
  for_each (range1 (trials db)) (trial_body fuel i db).

(** Lines 38 to 75: the body of [for db in self.dbs]. *)
Definition db_body (fuel : nat) (i : nat) (db : DbSystem) : M unit :=
  db_trials fuel i db;;
  call (EvCleanup i);;
  run_hooks "POST_DB" [ADb i].

(** [Runner.run]. *)
Definition run (fuel : nat) (dbs : list DbSystem) : M unit :=
  run_hooks "PRE_RUN" [];;
  for_each_from 0 dbs (db_body fuel);;
  run_hooks "POST_RUN" [].

End Run.

(** ** Views of a trace

    A view keeps, of every event, what a projection reads from it. A piece
    of the run is silent for a view when none of its events shows in it,
    and keeps the store when it leaves every target's statistics alone. *)
Definition view {X} (proj : event → option X) (l : list event) : list X :=
  omap proj l.

Definition silent {X} (proj : event → option X) {A} (m : M A) : Prop :=
  ∀ st, view proj (emitted (m st)) = [].

Definition keeps_store {A} (m : M A) : Prop :=
  ∀ st, store_after (m st) = store st.

(** The sweep body is entered: its first step, for target [i] at
    [(trial, mpl)]. *)
Definition entered (e : event) : option (nat * Z * Z) :=
  match e with
  | EvLog i msg (Some mpl) (Some trial) =>
      if decide (msg = cleaning_msg) then Some (i, trial, mpl) else None
  | _ => None
  end.

(** The MPL values for which the sweep body executes. *)
Definition executed_mpl (e : event) : option Z :=
  match entered e with
  | Some (_, _, mpl) => Some mpl
  | None => None
  end.

(** The MPL values the [PRE_MPL] hook is dispatched for. *)
Definition pre_mpl_dispatch (e : event) : option Z :=
  match e with
  | EvRunHooks location [AInt mpl; AInt _; ADb _] =>
      if decide (location = "PRE_MPL") then Some mpl else None
  | _ => None
  end.

(** *** Hook activity

    What the dispatches of a piece of the run do: a dispatch is entered, a
    callback is called. *)
Inductive hook_step : Type :=
| Dispatched (location : string) (args : list arg)
| Called (h : nat) (args : list arg).

Definition hook_activity (e : event) : option hook_step :=
  match e with
  | EvRunHooks location args => Some (Dispatched location args)
  | EvHook h args => Some (Called h args)
  | _ => None
  end.

(** The callbacks registered at a location, in registration order: none
    when the location is not in the table. *)
Definition registered (hooks : gmap string (list nat)) (location : string)
    : list nat :=
  default [] (hooks !! PyStr.upper location).

(** A whole dispatch: it is entered, and every callback registered at the
    location is called, in registration order, with the arguments of the
    dispatch. *)
Definition whole_dispatch (hooks : gmap string (list nat)) (location : string)
    (args : list arg) : list hook_step :=
  Dispatched location args :: ((λ h, Called h args) <$> registered hooks location).

(** The arguments [PRE_MPL] and [POST_MPL] are dispatched with. *)
Definition mpl_args (i : nat) (trial mpl : Z) : list arg :=
  [AInt mpl; AInt trial; ADb i].

(** The hook activity of one executed sweep step: [PRE_MPL] before the
    limit check, [POST_MPL] in the body. *)
Definition step_dispatches (hooks : gmap string (list nat)) (i : nat)
    (trial mpl : Z) : list hook_step :=
  whole_dispatch hooks "PRE_MPL" (mpl_args i trial mpl) ++
  whole_dispatch hooks "POST_MPL" (mpl_args i trial mpl).

(** The targets whose [cleanup] is called. *)
Definition cleanup_of (e : event) : option nat :=
  match e with
  | EvCleanup i => Some i
  | _ => None
  end.

(** The targets the run loop starts on: [PRE_DB] is dispatched first. *)
Definition started_on (e : event) : option nat :=
  match e with
  | EvRunHooks location [ADb i] =>
      if decide (location = "PRE_DB") then Some i else None
  | _ => None
  end.

(** *** Milestones of a sweep step

    The steps of one [(trial, mpl)] iteration that the durability and the
    hook-bracket properties speak of. *)
Inductive milestone : Type :=
| MEnter (i : nat) (trial mpl : Z)        (* the sweep body is entered *)
| MAppend (i : nat) (row : Statistics)    (* the row is appended *)
| MPostMpl (i : nat) (trial mpl : Z)      (* POST_MPL is dispatched *)
| MCallback (h : nat) (args : list arg)   (* a callback is called *)
| MExport (i : nat) (snapshot : list Statistics). (* the statistics are exported *)

(** Entering, appending, exporting. *)
Definition durability_step (e : event) : option milestone :=
  match e with
  | EvLog i msg (Some mpl) (Some trial) =>
      if decide (msg = cleaning_msg) then Some (MEnter i trial mpl) else None
  | EvAddStats i row => Some (MAppend i row)
  | EvExportStats i snapshot => Some (MExport i snapshot)
  | _ => None
  end.

(** Appending, dispatching [POST_MPL], exporting. *)
Definition bracket_step (e : event) : option milestone :=
  match e with
  | EvAddStats i row => Some (MAppend i row)
  | EvRunHooks location [AInt mpl; AInt trial; ADb i] =>
      if decide (location = "POST_MPL") then Some (MPostMpl i trial mpl) else None
  | EvExportStats i snapshot => Some (MExport i snapshot)
  | _ => None
  end.

(** The same with the callbacks that are called. Inside the sweep body
    [POST_MPL] is the only dispatch, so the callbacks called there are
    those of [POST_MPL]. *)
Definition bracket_call_step (e : event) : option milestone :=
  match e with
  | EvHook h args => Some (MCallback h args)
  | _ => bracket_step e
  end.

(** The row of the pair [(trial, mpl)]: both coordinates are set. *)
Definition row_of (trial mpl : Z) (row : Statistics) : Prop :=
  row !! "mpl" = Some (VInt mpl) ∧ row !! "trial" = Some (VInt trial).

(** One iteration as the durability property sees it: the body is entered
    for a pair, the row of that pair is appended, and then the statistics
    are exported, the row being the last of what is exported. *)
Definition durable_unit (u : list milestone) : Prop :=
  ∃ i trial mpl row snapshot,
    u = [MEnter i trial mpl; MAppend i row; MExport i snapshot] ∧
    row_of trial mpl row ∧ last snapshot = Some row.

(** One iteration as the hook bracket sees it: the row is appended, then
    [POST_MPL] is dispatched for the pair, then the statistics are
    exported. *)
Definition bracket_unit (u : list milestone) : Prop :=
  ∃ i trial mpl row snapshot,
    u = [MAppend i row; MPostMpl i trial mpl; MExport i snapshot] ∧
    row_of trial mpl row ∧ last snapshot = Some row.

(** The pair a row belongs to, read from its [trial] and [mpl] fields. *)
Definition pair_of_row (row : Statistics) : option (Z * Z) :=
  match row !! "trial", row !! "mpl" with
  | Some (VInt trial), Some (VInt mpl) => Some (trial, mpl)
  | _, _ => None
  end.

(** The pair an export is for: that of the last row of what it exports. *)
Definition exported_pair (i : nat) (snapshot : list Statistics)
    : option (nat * Z * Z) :=
  match last snapshot ≫= pair_of_row with
  | Some (trial, mpl) => Some (i, trial, mpl)
  | None => None
  end.

Definition exported_for (e : event) : option (nat * Z * Z) :=
  match e with
  | EvExportStats i snapshot => exported_pair i snapshot
  | _ => None
  end.

(** The same two readings, on milestones. *)
Definition entered_milestone (m : milestone) : option (nat * Z * Z) :=
  match m with
  | MEnter i trial mpl => Some (i, trial, mpl)
  | _ => None
  end.

Definition exported_milestone (m : milestone) : option (nat * Z * Z) :=
  match m with
  | MExport i snapshot => exported_pair i snapshot
  | _ => None
  end.

(** A view made of whole iterations, one after the other. *)
Definition iterations (unit : list milestone → Prop) (l : list milestone) : Prop :=
  ∃ us, Forall unit us ∧ l = concat us.

(** A view made of whole iterations followed by the beginning of one. *)
Definition cut_short (unit : list milestone → Prop) (l : list milestone) : Prop :=
  ∃ us t rest, Forall unit us ∧ l = concat us ++ t ∧ unit (t ++ rest).

(** A piece of the run proceeds by whole iterations: its view is made of
    whole iterations when it returns, and of whole iterations and at most
    the beginning of one more when it does not. *)
Definition in_iterations (proj : event → option milestone)
    (unit : list milestone → Prop) {A} (m : M A) : Prop :=
  ∀ st,
    (iterations unit (view proj (emitted (m st))) ∨
     cut_short unit (view proj (emitted (m st)))) ∧
    (is_ok (result (m st)) = true → iterations unit (view proj (emitted (m st)))).

(** The claim that a target's cleanup runs exactly once for every target
    the run loop starts on, in every run, whether or not something
    raised. *)
Definition cleanup_always_runs : Prop :=
  ∀ E STAT_REGEXPS TRACKED_STATS hooks trials min_mpl max_mpl inc_mpl clean_data
    fuel dbs st,
    let o := run E STAT_REGEXPS TRACKED_STATS hooks trials min_mpl max_mpl inc_mpl
               clean_data fuel dbs st in
    ∀ i, i ∈ view started_on (emitted o) →
         length (filter (λ j, j = i) (view cleanup_of (emitted o))) = 1%nat.

(** A piece of the run that always returns. *)
Definition returns {A} (m : M A) : Prop :=
  ∀ st, is_ok (result (m st)) = true.

(** An outside where no call raises, and tables with which the extraction
    succeeds on whatever the external process prints. *)
Definition never_raises (E : env) : Prop :=
  ∀ before e, raises E before e = None.

Definition extraction_succeeds (E : env) (STAT_REGEXPS : list (string * regex))
    (TRACKED_STATS : gmap string (string → res pyval)) : Prop :=
  ∀ before c,
    is_ok (extract_stats STAT_REGEXPS TRACKED_STATS (popen_stdout E before c)) = true.

(** The arithmetic sequence [start, start + step, ...] of [n] terms. *)
Definition arith (start step : Z) (n : nat) : list Z :=
  (λ k, start + Z.of_nat k * step) <$> seq 0 n.

(** ** Concrete instances

    Small concrete patterns, tables, targets and environments on which the
    model is run in the worked examples below. *)
Module Sample.

(** A pattern given by its matcher at the start of a string: the number
    of characters the match takes (at least one) and its groups. *)
Definition matcher : Type := string → option (nat * list (option string)).

Fixpoint search_from (m : matcher) (s : string) : option (list (option string)) :=
  match m s with
  | Some (_, gs) => Some gs
  | None =>
      match s with
      | EmptyString => None
      | String _ s' => search_from m s'
      end
  end.

Fixpoint skip (n : nat) (s : string) : string :=
  match n, s with
  | S n', String _ s' => skip n' s'
  | _, _ => s
  end.

Fixpoint sub_from (fuel : nat) (m : matcher) (repl s : string) : string :=
  match fuel with
  | O => s
  | S fuel' =>
      match m s with
      | Some (len, _) => repl +:+ sub_from fuel' m repl (skip len s)
      | None =>
          match s with
          | EmptyString => EmptyString
          | String a s' => String a (sub_from fuel' m repl s')
          end
      end
  end.

Definition regex_of (m : matcher) : regex :=
  Regex (search_from m) (λ repl s, sub_from (S (String.length s)) m repl s).

(** The text before the first closing bracket, with its length. *)
Fixpoint until_close (s : string) : option (string * nat) :=
  match s with
  | EmptyString => None
  | String a s' =>
      if Ascii.eqb a "]" then Some (EmptyString, O)
      else match until_close s' with
           | Some (c, n) => Some (String a c, S n)
           | None => None
           end
  end.

(** A label in square brackets: an opening bracket, one group of one or
    more characters other than the closing bracket, a closing bracket. *)
Definition label_at : matcher := λ s,
  match s with
  | String "[" s' =>
      match until_close s' with
      | Some (c, S n) => Some (S n + 2, [Some c])%nat
      | _ => None
      end
  | _ => None
  end.

Definition RE_DBNAME_LABEL : regex := regex_of label_at.

Fixpoint strip_prefix (lit s : string) : option string :=
  match lit, s with
  | EmptyString, _ => Some s
  | String a lit', String b s' =>
      if Ascii.eqb a b then strip_prefix lit' s' else None
  | String _ _, EmptyString => None
  end.

Fixpoint digits_run (s : string) : string :=
  match s with
  | String a s' =>
      match ConfigParser.digit_of a with
      | Some _ => String a (digits_run s')
      | None => EmptyString
      end
  | EmptyString => EmptyString
  end.

(** The literal [lit] followed by one group of one or more digits. *)
Definition number_after (lit : string) : matcher := λ s,
  match strip_prefix lit s with
  | Some rest =>
      match digits_run rest with
      | EmptyString => None
      | d => Some (String.length lit + String.length d, [Some d])%nat
      end
  | None => None
  end.

(** The literal [lit], no group. *)
Definition literal (lit : string) : matcher := λ s,
  match lit, strip_prefix lit s with
  | String _ _, Some _ => Some (String.length lit, [])
  | _, _ => None
  end.

Definition as_int (s : string) : res pyval :=
  res_bind (ConfigParser.py_int s) (λ z, Ok (VInt z)).

Definition STAT_REGEXPS : list (string * regex) :=
  [("opcount", regex_of (number_after "OPERATIONS], "));
   ("runtime", regex_of (number_after "RunTime(ms), "));
   ("banner", regex_of (literal "YCSB"))].

Definition TRACKED_STATS : gmap string (string → res pyval) :=
  <["opcount" := as_int]> (<["runtime" := as_int]> (<["banner" := as_int]> ∅)).

Definition OPTION_KEYS : list (string * opt_type) :=
  [("trials", TInt); ("min_mpl", TInt); ("max_mpl", TInt); ("inc_mpl", TInt);
   ("clean_data", TBool); ("output", TStr)].

Definition SUPPORTED_DBS : list string := ["jdbc"; "mongodb"].

(** A target's integer and boolean attributes, read from its typed
    configuration. *)
Definition int_attr (k : string) (db : DbSystem) : Z :=
  match config db !! k with
  | Some (VInt z) => z
  | _ => 0
  end.

Definition bool_attr (k : string) (db : DbSystem) : bool :=
  match config db !! k with
  | Some (VBool b) => b
  | _ => false
  end.

Definition typed_config (trials min_mpl max_mpl inc_mpl : Z) (clean_data : bool)
    : gmap string pyval :=
  <["trials" := VInt trials]> (<["min_mpl" := VInt min_mpl]>
  (<["max_mpl" := VInt max_mpl]> (<["inc_mpl" := VInt inc_mpl]>
  (<["clean_data" := VBool clean_data]> (<["output" := VStr "out"]> ∅))))).

Definition target (trials min_mpl max_mpl inc_mpl : Z) (clean_data : bool)
    : DbSystem :=
  mkDbSystem "jdbc" (typed_config trials min_mpl max_mpl inc_mpl clean_data)
    (VStr "") ∅.

(** An outside where no call raises and the process prints a report. *)
Definition report : string :=
  "[OVERALL], RunTime(ms), 1200
[ACTUAL OPERATIONS], 5000".

Definition quiet : env := Env (λ _ _, None) (λ _ _, report).

(** An outside where the benchmark process cannot be started. *)
Definition no_process : env :=
  Env (λ _ e, match e with
              | EvPopen (YcsbRun _ _) => Some (Exn "OSError" "ycsb")
              | _ => None
              end)
      (λ _ _, report).

Definition start : state := State [] ∅.

(** [Runner.run] on the tables and attribute readers above. *)
Definition run_with (E : env) (hooks : gmap string (list nat)) (fuel : nat)
    (dbs : list DbSystem) : M unit :=
  run E STAT_REGEXPS TRACKED_STATS hooks
    (int_attr "trials") (int_attr "min_mpl") (int_attr "max_mpl")
    (int_attr "inc_mpl") (bool_attr "clean_data") fuel dbs.

(** One target, one trial, one MPL value, and a benchmark process that
    cannot be started. *)
Definition failed_run : outcome unit :=
  run_with no_process ∅ 2 [target 1 1 1 1 true] start.

Definition mpl_loop_with (E : env) (hooks : gmap string (list nat)) (fuel : nat)
    (db : DbSystem) (trial : Z) : M unit :=
  mpl_loop E STAT_REGEXPS TRACKED_STATS hooks
    (int_attr "max_mpl") (int_attr "inc_mpl") (bool_attr "clean_data")
    fuel 0 db trial (int_attr "min_mpl" db).

(** A config file with one well-formed section declaring three names, and
    one whose [trials] is not an integer and whose names are all of
    unsupported kinds. *)
Definition options (trials : string) : gmap string string :=
  <["trials" := trials]> (<["min_mpl" := "1"]> (<["max_mpl" := "5"]>
  (<["inc_mpl" := "2"]> (<["clean_data" := "yes"]> (<["output" := "out"]>
  (<["jdbc.url" := "jdbc:h2:mem"]> ∅)))))).

Definition good_file : ConfigParser.t :=
  [("jdbc[first], oracle ,MongoDB", options "3")].

Definition bad_file : ConfigParser.t :=
  [("oracle,db2[x]", options "three")].

End Sample.


(** * Properties *)

(** ** Statistics extraction *)

Section ExtractStatsProps.

Variable STAT_REGEXPS : list (string * regex).
Variable TRACKED_STATS : gmap string (string → res pyval).

Local Abbreviation coerce := (coerce TRACKED_STATS).
Local Abbreviation extract_loop := (extract_loop TRACKED_STATS).
Local Abbreviation extract_stats := (extract_stats STAT_REGEXPS TRACKED_STATS).

(** [get_re_match] answers the first group's text exactly when the
    pattern matched, has a group, and that group took part. *)
Lemma get_re_match_spec rx s :
  get_re_match rx s =
    match re_search rx s with
    | Some (Some m :: _) => Some m
    | _ => None
    end.
Proof.
  unfold get_re_match.
  destruct (re_search rx s) as [[|[m|] gs]|]; reflexivity.
Qed.

Lemma extract_loop_lookup items stdout :
  NoDup (fst <$> items) →
  ∀ acc stats,
    extract_loop items stdout acc = Ok stats →
    (∀ k, k ∉ fst <$> items → stats !! k = acc !! k) ∧
    (∀ k rx, (k, rx) ∈ items →
       match get_re_match rx stdout with
       | Some m => ∃ v, coerce k m = Ok v ∧ stats !! k = Some v
       | None => stats !! k = acc !! k
       end).
Proof.
  induction items as [|[k0 rx0] items IH]; intros Hnd acc stats Hrun.
  - simpl in Hrun. injection Hrun as <-. split; [done|].
    intros k rx Hin. by apply elem_of_nil in Hin.
  - rewrite fmap_cons in Hnd. apply NoDup_cons in Hnd as [Hfresh Hnd].
    simpl in Hrun, Hfresh.
    assert (Hstep : ∃ acc',
               extract_loop items stdout acc' = Ok stats ∧
               match get_re_match rx0 stdout with
               | Some m => ∃ v, coerce k0 m = Ok v ∧ acc' = <[k0 := v]> acc
               | None => acc' = acc
               end).
    { destruct (get_re_match rx0 stdout) as [m|]; [|by eauto].
      destruct (coerce k0 m) as [v| |]; simpl in Hrun; [|done..].
      eauto. }
    destruct Hstep as (acc' & Hrest & Hacc).
    destruct (IH Hnd acc' stats Hrest) as [Hout Hin].
    split.
    + intros k Hk. rewrite fmap_cons, not_elem_of_cons in Hk.
      destruct Hk as [Hne Hk]. simpl in Hne.
      rewrite (Hout k Hk).
      destruct (get_re_match rx0 stdout); [|by subst].
      destruct Hacc as (v & _ & ->). by rewrite lookup_insert_ne.
    + intros k rx Hmem. apply elem_of_cons in Hmem as [Heq|Hmem].
      * injection Heq as -> ->. rewrite (Hout k0 Hfresh).
        destruct (get_re_match rx0 stdout); [|by subst].
        destruct Hacc as (v & Hv & ->). exists v.
        by rewrite lookup_insert_eq.
      * specialize (Hin k rx Hmem).
        assert (k ≠ k0) as Hne.
        { intros ->. apply Hfresh.
          by apply (list_elem_of_fmap_2 fst _ (k0, rx)). }
        destruct (get_re_match rx stdout); [done|].
        rewrite Hin.
        destruct (get_re_match rx0 stdout); [|by subst].
        destruct Hacc as (v & _ & ->). by rewrite lookup_insert_ne.
Qed.

Lemma extract_loop_total items stdout :
  (∀ k rx m, (k, rx) ∈ items → get_re_match rx stdout = Some m →
             is_ok (coerce k m) = true) →
  ∀ acc, is_ok (extract_loop items stdout acc) = true.
Proof.
  induction items as [|[k0 rx0] items IH]; intros Hco acc; [done|].
  simpl. destruct (get_re_match rx0 stdout) as [m|] eqn:Hm.
  - assert (is_ok (coerce k0 m) = true) as Hok.
    { apply (Hco k0 rx0 m); [left|done]. }
    destruct (coerce k0 m); [|done..]. simpl.
    apply IH. intros k rx m' Hin Hm'. apply (Hco k rx m'); [by right|done].
  - apply IH. intros k rx m' Hin Hm'. apply (Hco k rx m'); [by right|done].
Qed.

Lemma extract_loop_no_match items stdout :
  (∀ k rx, (k, rx) ∈ items → get_re_match rx stdout = None) →
  ∀ acc, extract_loop items stdout acc = Ok acc.
Proof.
  induction items as [|[k0 rx0] items IH]; intros Hno acc; [done|].
  simpl. assert (get_re_match rx0 stdout = None) as -> by (apply (Hno k0); left).
  apply IH. intros k rx Hin. apply (Hno k rx). by right.
Qed.

(** C7. For every text and every metric of the table: when the metric's
    pattern matches, has a capturing group and the first group of the
    first match holds the text [m], the record stores the coercion of [m]
    under the metric; in every other case the metric is unset in the
    record. The extraction returns as soon as the coercions of the
    captured texts do, so a metric that does not match is never an error;
    when nothing matches the record is empty. The table is a dict: its
    keys are distinct. *)
Theorem extract_stats_per_metric :
  NoDup (fst <$> STAT_REGEXPS) →
  ∀ stdout,
    (∀ stats, extract_stats stdout = Ok stats →
       ∀ k rx, (k, rx) ∈ STAT_REGEXPS →
         match re_search rx stdout with
         | Some (Some m :: _) => ∃ v, coerce k m = Ok v ∧ stats !! k = Some v
         | _ => stats !! k = None
         end) ∧
    ((∀ k rx m, (k, rx) ∈ STAT_REGEXPS →
         get_re_match rx stdout = Some m → is_ok (coerce k m) = true) →
     is_ok (extract_stats stdout) = true) ∧
    ((∀ k rx, (k, rx) ∈ STAT_REGEXPS → get_re_match rx stdout = None) →
     extract_stats stdout = Ok ∅).
Proof.
  intros Hnd stdout. split; [|split].
  - intros stats Hrun k rx Hin.
    destruct (extract_loop_lookup _ _ Hnd _ _ Hrun) as [_ Hmem].
    specialize (Hmem k rx Hin). rewrite get_re_match_spec in Hmem.
    destruct (re_search rx stdout) as [[|[m|] gs]|]; by rewrite ?lookup_empty in Hmem.
  - intros Hco. by apply extract_loop_total.
  - intros Hno. by apply extract_loop_no_match.
Qed.


End ExtractStatsProps.

Lemma extract_stats_per_metric_witness :
  NoDup (fst <$> Sample.STAT_REGEXPS) ∧
  ∃ stats,
    extract_stats Sample.STAT_REGEXPS Sample.TRACKED_STATS Sample.report = Ok stats ∧
    stats !! "opcount" = Some (VInt 5000) ∧ stats !! "banner" = None.
Proof.
  assert (Hnd : NoDup (fst <$> Sample.STAT_REGEXPS)).
  { refine (bool_decide_unpack (NoDup (fst <$> Sample.STAT_REGEXPS)) _).
    vm_compute. exact I. }
  split; [exact Hnd|].
  destruct (extract_stats_per_metric Sample.STAT_REGEXPS Sample.TRACKED_STATS
              Hnd Sample.report) as (Hper & Htot & _).
  destruct (extract_stats Sample.STAT_REGEXPS Sample.TRACKED_STATS Sample.report)
    as [stats| |] eqn:Hrun.
  - exists stats. split; [reflexivity|]. split.
    + destruct (Hper stats eq_refl "opcount"
                  (Sample.regex_of (Sample.number_after "OPERATIONS], "))) as (v & Hv & Hs).
      { vm_compute. left. }
      vm_compute in Hv. injection Hv as <-. exact Hs.
    + apply (Hper stats eq_refl "banner" (Sample.regex_of (Sample.literal "YCSB"))).
      vm_compute. right. right. left.
  - vm_compute in Hrun. discriminate.
  - vm_compute in Hrun. discriminate.
Defined.

(** ** Config-section processing *)

Section ProcessSectionsProps.

Variable OPTION_KEYS : list (string * opt_type).
Variable SUPPORTED_DBS : list string.
Variable RE_DBNAME_LABEL : regex.
Variable cp : ConfigParser.t.

Local Abbreviation extraneous_config_of := (extraneous_config_of OPTION_KEYS).
Local Abbreviation split_label := (split_label RE_DBNAME_LABEL).
Local Abbreviation supported := (supported SUPPORTED_DBS).
Local Abbreviation invalid_database_line := (invalid_database_line SUPPORTED_DBS).
Local Abbreviation dbs_loop := (dbs_loop SUPPORTED_DBS RE_DBNAME_LABEL).
Local Abbreviation process_dbs := (process_dbs OPTION_KEYS SUPPORTED_DBS RE_DBNAME_LABEL cp).
Local Abbreviation process_runner_config_keys := (process_runner_config_keys OPTION_KEYS cp).
Local Abbreviation sections_loop := (sections_loop OPTION_KEYS SUPPORTED_DBS RE_DBNAME_LABEL cp).
Local Abbreviation process_sections := (process_sections OPTION_KEYS SUPPORTED_DBS RE_DBNAME_LABEL cp).
Local Abbreviation config_keys_loop := (config_keys_loop cp).
Local Abbreviation label_of := (label_of RE_DBNAME_LABEL).
Local Abbreviation bare_name := (bare_name RE_DBNAME_LABEL).
Local Abbreviation spec_targets := (spec_targets SUPPORTED_DBS RE_DBNAME_LABEL).
Local Abbreviation spec_diagnostics := (spec_diagnostics SUPPORTED_DBS RE_DBNAME_LABEL).
Local Abbreviation option_ok := (option_ok cp).

(** Sequencing of printing computations. *)
Lemma P_bind_lift {A B} (a : A) (f : A → P B) : lift_res (Ok a) ≫= f = f a.
Proof. unfold mbind, P_bind. simpl. by destruct (f a). Qed.

Lemma P_bind_print {B} (line : string) (k : P B) :
  (print line;; k) = (line :: k.1, k.2).
Proof. reflexivity. Qed.

Lemma P_bind_ok {A B} (m : P A) (f : A → P B) out a :
  m = (out, Ok a) → m ≫= f = (out ++ (f a).1, (f a).2).
Proof. by intros ->. Qed.

Lemma P_bind_not_ok {A B} (m : P A) (f : A → P B) :
  is_ok m.2 = false →
  (m ≫= f).1 = m.1 ∧ is_ok (m ≫= f).2 = false ∧
  ∀ e, m.2 = Raised e → (m ≫= f).2 = Raised e.
Proof.
  unfold mbind, P_bind. destruct m as [out [a|e|]]; simpl; [done|..].
  - intros _. split; [done|]. split; [done|]. by intros ? [= ->].
  - done.
Qed.

(** Interpolation leaves a text without percent sign as it is. *)
Lemma interpolate_some_plain map levels v :
  ConfigParser.contains_percent v = false →
  ConfigParser.interpolate_some map (S levels) v = Ok v.
Proof.
  cbn [ConfigParser.interpolate_some].
  induction v as [|a v IH]; [done|].
  cbn [ConfigParser.contains_percent ConfigParser.scan]. intros Hno.
  apply orb_false_elim in Hno as [Ha Hv].
  rewrite Ha, (IH Hv). done.
Qed.

Lemma before_get_plain map v :
  ConfigParser.contains_percent v = false → ConfigParser.before_get map v = Ok v.
Proof. apply interpolate_some_plain. Qed.

(** The steps of the interpolation loop. *)
Lemma scan_other map deeper a rest :
  Ascii.eqb a "%" = false →
  ConfigParser.scan map deeper (String a rest) =
    res_bind (ConfigParser.scan map deeper rest) (λ s, Ok (String a s)).
Proof. intros Ha. cbn [ConfigParser.scan]. by rewrite Ha. Qed.

Lemma scan_doubled map deeper rest :
  ConfigParser.scan map deeper (String "%" (String "%" rest)) =
    res_bind (ConfigParser.scan map deeper rest) (λ s, Ok (String "%" s)).
Proof. reflexivity. Qed.

Lemma scan_open map deeper rest :
  ConfigParser.scan map deeper (String "%" (String "(" rest)) =
    ConfigParser.key map deeper rest EmptyString.
Proof. reflexivity. Qed.

Lemma key_other map deeper a rest var :
  Ascii.eqb a ")" = false →
  ConfigParser.key map deeper (String a rest) var =
    ConfigParser.key map deeper rest (var +:+ String a EmptyString).
Proof.
  intros Ha. destruct rest; cbn [ConfigParser.key]; by rewrite Ha.
Qed.

Lemma key_close map deeper a var rest v :
  map !! PyStr.lower (String a var) = Some v →
  ConfigParser.contains_percent v = false →
  ConfigParser.key map deeper (String ")" (String "s" rest)) (String a var) =
    res_bind (ConfigParser.scan map deeper rest) (λ s, Ok (v +:+ s)).
Proof.
  intros Hv Hplain. cbn [ConfigParser.key].
  rewrite !Ascii.eqb_refl, Hv, Hplain. done.
Qed.

(** A doubled percent sign is read as one. *)
Lemma scan_escaped map deeper s :
  ConfigParser.scan map deeper (ConfigParser.escaped s) = Ok s.
Proof.
  induction s as [|a s IH]; [done|].
  cbn [ConfigParser.escaped].
  destruct (Ascii.eqb a "%") eqn:Ha.
  - apply Ascii.eqb_eq in Ha as ->. by rewrite scan_doubled, IH.
  - by rewrite (scan_other _ _ _ _ Ha), IH.
Qed.

Lemma append_cons a (s t : string) : String a s +:+ t = String a (s +:+ t).
Proof. reflexivity. Qed.

Lemma append_snoc (var : string) a name :
  (var +:+ String a EmptyString) +:+ name = var +:+ String a name.
Proof.
  induction var as [|b var IH]; [done|]. rewrite !append_cons. by rewrite IH.
Qed.

Lemma append_empty_r (s : string) : s +:+ EmptyString = s.
Proof. induction s as [|a s IH]; [done|]. rewrite append_cons. by rewrite IH. Qed.

(** The name of a reference is read up to the closing parenthesis. *)
Lemma key_reads map deeper name :
  ConfigParser.no_closing name = true →
  ∀ var rest,
    ConfigParser.key map deeper (name +:+ rest) var =
    ConfigParser.key map deeper rest (var +:+ name).
Proof.
  induction name as [|a name IH]; intros Hname var rest.
  - by rewrite append_empty_r.
  - cbn [ConfigParser.no_closing] in Hname.
    apply andb_prop in Hname as [Ha Hname].
    apply negb_true_iff in Ha.
    rewrite append_cons, (key_other _ _ _ _ _ Ha), (IH Hname), append_snoc. done.
Qed.

(** A reference to an option whose value holds no percent sign is
    replaced by that value. *)
Lemma scan_reference map deeper name v rest :
  ConfigParser.is_name name = true →
  map !! PyStr.lower name = Some v →
  ConfigParser.contains_percent v = false →
  ConfigParser.scan map deeper (ConfigParser.reference name +:+ rest) =
    res_bind (ConfigParser.scan map deeper rest) (λ s, Ok (v +:+ s)).
Proof.
  intros Hname Hv Hplain. unfold ConfigParser.reference.
  assert (Hclose : ConfigParser.no_closing name = true) by (by destruct name).
  change (("%(" +:+ name +:+ ")s") +:+ rest)
    with (String "%" (String "(" ((name +:+ ")s") +:+ rest))).
  assert (Happ : (name +:+ ")s") +:+ rest = name +:+ String ")" (String "s" rest)).
  { clear. induction name as [|a name IH]; [done|].
    rewrite !append_cons. by rewrite IH. }
  rewrite scan_open, Happ, (key_reads _ _ _ Hclose).
  destruct name as [|a name]; [done|].
  change (EmptyString +:+ String a name) with (String a name).
  by apply key_close.
Qed.

(** What the comprehension returns holds, under every key visited, what
    the section's [get] answered for it; it returns when every read does. *)
Lemma comprehension_lookup config_section keys :
  ∀ d m, comprehension config_section keys d = Ok m →
    (∀ k, k ∈ keys →
       ∃ v, ConfigParser.proxy_get config_section k = Ok v ∧ m !! k = Some v) ∧
    (∀ k, k ∉ keys → m !! k = d !! k).
Proof.
  induction keys as [|k0 keys IH]; intros d m Hrun.
  - injection Hrun as <-. split; [|done]. intros k Hin. by apply elem_of_nil in Hin.
  - cbn [comprehension] in Hrun.
    destruct (ConfigParser.proxy_get config_section k0) as [v0| |] eqn:Hget;
      [|done..].
    cbn [res_bind] in Hrun. destruct (IH _ _ Hrun) as [Hin Hout]. split.
    + intros k Hk. destruct (decide (k ∈ keys)) as [Hkeys|Hkeys]; [by apply Hin|].
      apply elem_of_cons in Hk as [->|Hk]; [|done].
      exists v0. split; [done|]. rewrite (Hout _ Hkeys). apply lookup_insert_eq.
    + intros k Hk. apply not_elem_of_cons in Hk as [Hne Hk].
      rewrite (Hout _ Hk). by apply lookup_insert_ne.
Qed.

Lemma comprehension_ok config_section keys :
  ∀ d, is_ok (comprehension config_section keys d) =
       forallb (λ k, is_ok (ConfigParser.proxy_get config_section k)) keys.
Proof.
  induction keys as [|k0 keys IH]; intros d; [done|].
  cbn [comprehension forallb].
  destruct (ConfigParser.proxy_get config_section k0); cbn; [apply IH|done..].
Qed.

Lemma proxy_get_stored config_section k v :
  stored_lowercase config_section →
  config_section !! k = Some v →
  ConfigParser.proxy_get config_section k =
    res_bind (ConfigParser.before_get config_section v) (λ s, Ok (VStr s)).
Proof.
  intros Hlow Hk. unfold ConfigParser.proxy_get.
  rewrite (Hlow k v Hk). by rewrite Hk.
Qed.

Lemma elem_of_extraneous_keys (config_section : gmap string string) k :
  k ∈ elements (dom config_section ∖ list_to_set (C := gset string) (fst <$> OPTION_KEYS)) ↔
  is_Some (config_section !! k) ∧ k ∉ fst <$> OPTION_KEYS.
Proof.
  by rewrite elem_of_elements, elem_of_difference, elem_of_dom, elem_of_list_to_set.
Qed.

(** C6, as the code has it. The keys of the extraneous config of a section
    are exactly the keys of the section that are not recognized options,
    and no recognized option is ever one of them. The value under a key
    is what the section's [get] returns for it: the string written in the
    section after the parser's interpolation, which is that string itself
    when it holds no percent sign. The extraneous config is computed
    exactly when every such value can be interpolated; for a section in
    which no extraneous value holds a percent sign it is computed and maps
    every key to the string written for it. In a value a doubled percent
    sign is read as one, so a text with percent signs is read back as it
    is only when it is written with every percent sign doubled; and a
    reference to another option of the section is read as the value of
    that option. *)
Theorem extraneous_config_keys_and_values (config_section : gmap string string) :
  stored_lowercase config_section →
  (∀ m, extraneous_config_of config_section = Ok m →
     dom m = dom config_section ∖ list_to_set (fst <$> OPTION_KEYS) ∧
     (∀ k, k ∈ fst <$> OPTION_KEYS → m !! k = None) ∧
     (∀ k v, k ∉ fst <$> OPTION_KEYS → config_section !! k = Some v →
        ∃ s, ConfigParser.before_get config_section v = Ok s ∧
             m !! k = Some (VStr s) ∧
             (ConfigParser.contains_percent v = false → s = v))) ∧
  (is_ok (extraneous_config_of config_section) = true ↔
   ∀ k v, k ∉ fst <$> OPTION_KEYS → config_section !! k = Some v →
     is_ok (ConfigParser.before_get config_section v) = true) ∧
  ((∀ k v, k ∉ fst <$> OPTION_KEYS → config_section !! k = Some v →
      ConfigParser.contains_percent v = false) →
   ∃ m, extraneous_config_of config_section = Ok m ∧
        ∀ k, m !! k =
               if decide (k ∈ fst <$> OPTION_KEYS) then None
               else VStr <$> config_section !! k) ∧
  (∀ s, ConfigParser.before_get config_section (ConfigParser.escaped s) = Ok s) ∧
  (∀ name v,
     ConfigParser.is_name name = true →
     config_section !! PyStr.lower name = Some v →
     ConfigParser.contains_percent v = false →
     ConfigParser.before_get config_section (ConfigParser.reference name) = Ok v).
Proof.
  intros Hlow.
  assert (Hvalues : ∀ m, extraneous_config_of config_section = Ok m →
            (∀ k, k ∈ fst <$> OPTION_KEYS → m !! k = None) ∧
            (∀ k, config_section !! k = None → m !! k = None) ∧
            (∀ k v, k ∉ fst <$> OPTION_KEYS → config_section !! k = Some v →
               ∃ s, ConfigParser.before_get config_section v = Ok s ∧
                    m !! k = Some (VStr s) ∧
                    (ConfigParser.contains_percent v = false → s = v))).
  { intros m Hrun. unfold extraneous_config_of in Hrun.
    destruct (comprehension_lookup _ _ _ _ Hrun) as [Hin Hout].
    split; [|split].
    - intros k Hk. rewrite Hout, lookup_empty; [done|].
      rewrite elem_of_extraneous_keys. tauto.
    - intros k Hk. rewrite Hout, lookup_empty; [done|].
      rewrite elem_of_extraneous_keys, Hk. intros [[? ?] _]. done.
    - intros k v Hk Hv.
      destruct (Hin k) as (pv & Hget & Hm).
      { rewrite elem_of_extraneous_keys, Hv. by split. }
      rewrite (proxy_get_stored _ _ _ Hlow Hv) in Hget.
      destruct (ConfigParser.before_get config_section v) as [s| |] eqn:Hs;
        [|done..].
      injection Hget as <-. exists s. split; [done|]. split; [done|].
      intros Hno. rewrite (before_get_plain _ _ Hno) in Hs. by injection Hs. }
  assert (Hok : is_ok (extraneous_config_of config_section) = true ↔
            ∀ k v, k ∉ fst <$> OPTION_KEYS → config_section !! k = Some v →
              is_ok (ConfigParser.before_get config_section v) = true).
  { unfold extraneous_config_of. rewrite comprehension_ok, forallb_forall. split.
    - intros Hall k v Hk Hv.
      specialize (Hall k). rewrite <- list_elem_of_In in Hall.
      rewrite elem_of_extraneous_keys, Hv in Hall.
      specialize (Hall (conj (mk_is_Some _ _ eq_refl) Hk)).
      rewrite (proxy_get_stored _ _ _ Hlow Hv) in Hall.
      by destruct (ConfigParser.before_get config_section v).
    - intros Hall k Hin. rewrite <- list_elem_of_In in Hin.
      apply elem_of_extraneous_keys in Hin as [[v Hv] Hk].
      rewrite (proxy_get_stored _ _ _ Hlow Hv).
      specialize (Hall k v Hk Hv).
      by destruct (ConfigParser.before_get config_section v). }
  split; [|split; [done|split; [|split]]].
  4: { intros name v Hname Hv Hplain. unfold ConfigParser.before_get.
       cbn [ConfigParser.interpolate_some ConfigParser.MAX_INTERPOLATION_DEPTH].
       rewrite <- (append_empty_r (ConfigParser.reference name)).
       rewrite (scan_reference _ _ _ _ _ Hname Hv Hplain).
       cbn [ConfigParser.scan res_bind]. by rewrite append_empty_r. }
  3: { intros s. apply scan_escaped. }
  - intros m Hrun. destruct (Hvalues m Hrun) as (Hrec & Hnone & Hval).
    split; [|by split].
    apply set_eq. intros k.
    rewrite elem_of_difference, !elem_of_dom, elem_of_list_to_set.
    destruct (decide (k ∈ fst <$> OPTION_KEYS)) as [Hk|Hk].
    { rewrite (Hrec k Hk). split; [by intros [? ?]|tauto]. }
    destruct (config_section !! k) as [v|] eqn:Hv.
    + destruct (Hval k v Hk Hv) as (s & _ & -> & _). split; [by split|by eexists].
    + rewrite (Hnone k Hv). split; [by intros [? ?]|]. intros [[? ?] _]. done.
  - intros Hplain.
    assert (Hsome : is_ok (extraneous_config_of config_section) = true).
    { apply Hok. intros k v Hk Hv.
      by rewrite (before_get_plain _ _ (Hplain k v Hk Hv)). }
    destruct (extraneous_config_of config_section) as [m| |] eqn:Hrun; [|done..].
    exists m. split; [done|]. intros k.
    destruct (Hvalues m eq_refl) as (Hrec & Hnone & Hval).
    destruct (decide (k ∈ fst <$> OPTION_KEYS)) as [Hk|Hk]; [by apply Hrec|].
    destruct (config_section !! k) as [v|] eqn:Hv; [|by apply Hnone].
    destruct (Hval k v Hk Hv) as (s & _ & -> & Hsame).
    by rewrite (Hsame (Hplain k v Hk Hv)).
Qed.

Lemma filter_cons_true {A} (f : A → bool) x l :
  filter (λ y, f y) (x :: l) =
    if f x then x :: filter (λ y, f y) l else filter (λ y, f y) l.
Proof.
  rewrite filter_cons. destruct (f x); by destruct (decide _).
Qed.

Lemma filter_cons_false {A} (f : A → bool) x l :
  filter (λ y, ¬ f y) (x :: l) =
    if f x then filter (λ y, ¬ f y) l else x :: filter (λ y, ¬ f y) l.
Proof.
  rewrite filter_cons.
  destruct (f x); destruct (decide _) as [H|H]; try done;
    exfalso; apply H; first [exact I|intros []].
Qed.

Lemma length_filter_split {A} (f : A → bool) (l : list A) :
  (length (filter (λ y, ¬ f y) l) + length (filter (λ y, f y) l)
   = length l)%nat.
Proof.
  induction l as [|x l IH]; [done|].
  rewrite filter_cons_true, filter_cons_false.
  destruct (f x); cbn [length]; lia.
Qed.

Lemma split_label_one_group name :
  (∀ gs, re_search RE_DBNAME_LABEL name = Some gs → length gs = 1%nat) →
  split_label name = Ok (label_of name, bare_name name).
Proof.
  intros Hone. unfold split_label, label_of, bare_name.
  destruct (re_search RE_DBNAME_LABEL name) as [gs|]; [|done].
  specialize (Hone gs eq_refl).
  destruct gs as [|g [|g' gs]]; [done| |done].
  by destruct g.
Qed.

Lemma dbs_loop_spec names cfg extraneous :
  (∀ name gs, name ∈ names →
     re_search RE_DBNAME_LABEL name = Some gs → length gs = 1%nat) →
  ∀ db_instances,
    dbs_loop names cfg extraneous db_instances =
      ((λ name, invalid_database_line (bare_name name))
         <$> filter (λ name, ¬ supported (bare_name name)) names,
       Ok (db_instances ++
           ((λ name, mkDbSystem (bare_name name) cfg (label_of name) extraneous)
              <$> filter (λ name, supported (bare_name name)) names))).
Proof.
  induction names as [|name names IH]; intros Hone acc.
  - simpl. by rewrite app_nil_r.
  - cbn [dbs_loop].
    rewrite split_label_one_group by (intros gs; apply Hone; left).
    rewrite P_bind_lift.
    assert (Hrest : ∀ name gs, name ∈ names →
              re_search RE_DBNAME_LABEL name = Some gs → length gs = 1%nat).
    { intros n gs Hin. apply Hone. by right. }
    rewrite (filter_cons_true (λ n, supported (bare_name n))).
    rewrite (filter_cons_false (λ n, supported (bare_name n))).
    destruct (supported (bare_name name)) eqn:Hsup.
    + rewrite IH by done. by rewrite <- app_assoc.
    + by rewrite P_bind_print, IH.
Qed.

(** C5. A section whose heading declares the names [section_names section]
    yields exactly one target per name whose bare name is of a supported
    kind: the loop of the code returns the list the spec describes. Every
    target carries the section's typed configuration and the section's
    extraneous config, and the label of its own name, the empty string
    when the name has no label marker. A name of another kind only adds
    its diagnostic line: the names after it are processed all the same.
    The label pattern has one capturing group. The extraneous config is
    computed first: when the parser cannot answer one of its keys, its
    error is that of the section and nothing is printed. *)
Theorem process_dbs_targets section cfg config_section :
  ConfigParser.find_section cp section = Some config_section →
  (∀ name gs, name ∈ section_names section →
     re_search RE_DBNAME_LABEL name = Some gs → length gs = 1%nat) →
  (∀ extraneous, extraneous_config_of config_section = Ok extraneous →
     process_dbs section cfg =
       (spec_diagnostics section, Ok (spec_targets section cfg extraneous)) ∧
     length (spec_targets section cfg extraneous) =
       length (filter (λ name, supported (bare_name name)) (section_names section)) ∧
     Forall (λ db, config db = cfg ∧ extraneous_config db = extraneous)
       (spec_targets section cfg extraneous) ∧
     label <$> spec_targets section cfg extraneous =
       label_of <$> filter (λ name, supported (bare_name name)) (section_names section) ∧
     (length (spec_diagnostics section) +
      length (spec_targets section cfg extraneous)
      = length (section_names section))%nat) ∧
  (∀ name, re_search RE_DBNAME_LABEL name = None → label_of name = VStr "") ∧
  (is_ok (extraneous_config_of config_section) = false →
   (process_dbs section cfg).1 = [] ∧
   is_ok (process_dbs section cfg).2 = false ∧
   ∀ e, extraneous_config_of config_section = Raised e →
        (process_dbs section cfg).2 = Raised e).
Proof.
  intros Hfind Hone. split; [|split].
  - intros extraneous Hext. split; [|split; [|split; [|split]]].
    + unfold process_dbs, ConfigParser.getitem.
      rewrite Hfind, P_bind_lift, Hext, P_bind_lift.
      by rewrite dbs_loop_spec.
    + unfold spec_targets. by rewrite length_fmap.
    + unfold spec_targets. apply Forall_fmap, Forall_true. done.
    + unfold spec_targets. rewrite <- list_fmap_compose. done.
    + unfold spec_targets, spec_diagnostics. rewrite !length_fmap.
      apply (length_filter_split (λ n, supported (bare_name n))).
  - intros name Hno. unfold label_of. by rewrite Hno.
  - intros Hfail. unfold process_dbs, ConfigParser.getitem.
    rewrite Hfind, P_bind_lift.
    destruct (extraneous_config_of config_section) as [m|e|]; [done|..].
    + split; [done|]. split; [done|]. by intros e' [= ->].
    + split; [done|]. split; [done|]. done.
Qed.

(** The typed configuration is built exactly when every recognized option
    is well formed. *)
Lemma config_keys_loop_ok items section :
  ∀ acc, is_ok (config_keys_loop items section acc).2 =
         forallb (option_ok section) items.
Proof.
  induction items as [|[k t] items IH]; intros acc; [done|].
  cbn [config_keys_loop forallb]. unfold option_ok at 1. cbn [fst snd].
  destruct t as [| | |f|].
  - unfold mbind, P_bind, lift_res. cbn [fst snd].
    destruct (ConfigParser.getint cp section k); cbn; [apply IH|done..].
  - rewrite P_bind_print. cbn [snd].
    unfold mbind, P_bind, lift_res. cbn [fst snd].
    destruct (ConfigParser.getboolean cp section k); cbn; [apply IH|done..].
  - unfold mbind, P_bind, lift_res. cbn [fst snd].
    destruct (ConfigParser.get cp section k); cbn; [apply IH|done..].
  - unfold mbind, P_bind, lift_res. cbn [fst snd].
    destruct (ConfigParser.get cp section k); cbn; [|done..].
    destruct (f a); cbn; [apply IH|done..].
  - rewrite P_bind_print. cbn [snd andb]. apply IH.
Qed.

Lemma sections_loop_app before rest :
  ∀ dbs out dbs',
    sections_loop before dbs = (out, Ok dbs') →
    sections_loop (before ++ rest) dbs =
      (out ++ (sections_loop rest dbs').1, (sections_loop rest dbs').2).
Proof.
  induction before as [|s before IH]; intros dbs out dbs' Hrun.
  - simpl in Hrun. injection Hrun as <- <-. simpl.
    by destruct (sections_loop rest dbs).
  - cbn [app sections_loop] in *.
    destruct (process_runner_config_keys s) as [out1 [cfg|e|]] eqn:Hcfg;
      [|done..].
    rewrite (P_bind_ok _ _ out1 cfg) in Hrun by done.
    rewrite (P_bind_ok _ _ out1 cfg) by done.
    destruct (process_dbs s cfg) as [out2 [new|e|]] eqn:Hdbs; [|done..].
    rewrite (P_bind_ok _ _ out2 new) in Hrun by done.
    rewrite (P_bind_ok _ _ out2 new) by done.
    cbn [fst snd] in *.
    destruct (sections_loop before (dbs ++ new)) as [out3 r3] eqn:Hrest.
    cbn [fst snd] in Hrun. injection Hrun as <- ->.
    rewrite (IH _ _ _ Hrest). cbn [fst snd].
    by rewrite !app_assoc.
Qed.

(** C10. The recognized options of a section are parsed before anything
    is done with the names in its heading. When a recognized option of
    section [s] is missing or not of its declared type, the processing of
    all sections stops there with the error of that parse: what was
    printed is what the sections before [s] and the parse itself printed,
    and neither the label pattern nor the supported kinds are consulted
    for [s], so the names of [s], of a supported kind or not, make no
    difference. *)
Theorem malformed_option_aborts_first before s rest out0 dbs0 item :
  ConfigParser.sections cp = before ++ s :: rest →
  sections_loop before [] = (out0, Ok dbs0) →
  item ∈ OPTION_KEYS →
  option_ok s item = false →
  is_ok (process_runner_config_keys s).2 = false ∧
  process_sections.1 = out0 ++ (process_runner_config_keys s).1 ∧
  is_ok process_sections.2 = false ∧
  (∀ e, (process_runner_config_keys s).2 = Raised e →
        process_sections.2 = Raised e).
Proof.
  intros Hsecs Hbefore Hitem Hbad.
  assert (Hfail : is_ok (process_runner_config_keys s).2 = false).
  { unfold process_runner_config_keys. rewrite config_keys_loop_ok.
    apply not_true_is_false. intros Hall.
    rewrite forallb_forall in Hall.
    apply list_elem_of_In in Hitem. specialize (Hall item Hitem).
    congruence. }
  split; [done|].
  unfold process_sections. rewrite Hsecs.
  rewrite (sections_loop_app _ _ _ _ _ Hbefore). cbn [fst snd].
  cbn [sections_loop].
  destruct (P_bind_not_ok (process_runner_config_keys s)
              (λ cfg, new ← process_dbs s cfg; sections_loop rest (dbs0 ++ new))
              Hfail) as (H1 & H2 & H3).
  split; [by rewrite H1|]. split; [done|]. done.
Qed.

End ProcessSectionsProps.


Lemma decide_true_computed (P : Prop) `{Decision P} :
  bool_decide P = true → P.
Proof. apply bool_decide_eq_true_1. Qed.

(** A section with three extraneous values: an escaped percent sign, a
    reference to another option, and a text without percent sign. The
    escape is read as one percent sign and the reference as the value it
    names, so two of the three values are not the strings written in the
    section. A lone percent sign cannot be read at all. *)
Lemma extraneous_values_are_interpolated :
  let config_section : gmap string string :=
    <["trials" := "3"]> (<["home" := "/srv/ycsb"]> (<["share" := "100%% reads"]>
    (<["logdir" := "%(home)s/log"]> ∅))) in
  stored_lowercase config_section ∧
  extraneous_config_of Sample.OPTION_KEYS config_section =
    Ok (<["home" := VStr "/srv/ycsb"]> (<["share" := VStr "100% reads"]>
       (<["logdir" := VStr "/srv/ycsb/log"]> ∅))) ∧
  config_section !! "share" = Some "100%% reads" ∧
  extraneous_config_of Sample.OPTION_KEYS {[ "share" := "50%" ]} =
    Raised ConfigParser.bad_percent ∧
  ¬ extraneous_values_are_raw Sample.OPTION_KEYS.
Proof.
  intros config_section.
  assert (Hlow : stored_lowercase config_section).
  { apply (decide_true_computed _). vm_compute. reflexivity. }
  assert (Hrun : extraneous_config_of Sample.OPTION_KEYS config_section =
            Ok (<["home" := VStr "/srv/ycsb"]> (<["share" := VStr "100% reads"]>
               (<["logdir" := VStr "/srv/ycsb/log"]> ∅)))).
  { vm_compute. reflexivity. }
  split; [exact Hlow|]. split; [exact Hrun|]. split; [reflexivity|].
  split; [vm_compute; reflexivity|].
  intros Hclaim. destruct (Hclaim config_section Hlow) as (m & Hm & Hraw).
  rewrite Hrun in Hm. injection Hm as <-.
  specialize (Hraw "share"). vm_compute in Hraw. discriminate Hraw.
Qed.

Lemma extraneous_config_keys_and_values_witness :
  let config_section := Sample.options "3" in
  stored_lowercase config_section ∧
  (∀ k v, k ∉ fst <$> Sample.OPTION_KEYS → config_section !! k = Some v →
     ConfigParser.contains_percent v = false) ∧
  ∃ m, extraneous_config_of Sample.OPTION_KEYS config_section = Ok m ∧
       m !! "jdbc.url" = Some (VStr "jdbc:h2:mem") ∧
       m !! "trials" = None.
Proof.
  intros config_section.
  assert (Hlow : stored_lowercase config_section).
  { apply (decide_true_computed _). vm_compute. reflexivity. }
  assert (Hplain : ∀ k v, k ∉ fst <$> Sample.OPTION_KEYS →
            config_section !! k = Some v →
            ConfigParser.contains_percent v = false).
  { assert (Hall : map_Forall (λ _ v, ConfigParser.contains_percent v = false)
                     config_section).
    { apply (decide_true_computed _). vm_compute. reflexivity. }
    intros k v _ Hv. exact (Hall k v Hv). }
  split; [exact Hlow|]. split; [exact Hplain|].
  destruct (extraneous_config_keys_and_values Sample.OPTION_KEYS config_section Hlow)
    as (_ & _ & Hraw & _).
  destruct (Hraw Hplain) as (m & Hm & Hlookup).
  exists m. split; [exact Hm|]. split.
  - rewrite Hlookup. vm_compute. reflexivity.
  - rewrite Hlookup. vm_compute. reflexivity.
Defined.

Lemma process_dbs_targets_witness :
  let section := "jdbc[first], oracle ,MongoDB" in
  let extraneous : gmap string pyval := {[ "jdbc.url" := VStr "jdbc:h2:mem" ]} in
  ConfigParser.find_section Sample.good_file section = Some (Sample.options "3") ∧
  (∀ name gs, name ∈ section_names section →
     re_search Sample.RE_DBNAME_LABEL name = Some gs → length gs = 1%nat) ∧
  extraneous_config_of Sample.OPTION_KEYS (Sample.options "3") = Ok extraneous ∧
  (process_dbs Sample.OPTION_KEYS Sample.SUPPORTED_DBS Sample.RE_DBNAME_LABEL
     Sample.good_file section ∅).1 =
    ["Invalid database found: oracle. Only (jdbc,mongodb) are supported. Skipping..."] ∧
  (label <$> spec_targets Sample.SUPPORTED_DBS
     Sample.RE_DBNAME_LABEL section ∅ extraneous) =
    [VStr "first"; VStr ""].
Proof.
  intros section extraneous.
  assert (Hfind : ConfigParser.find_section Sample.good_file section
                  = Some (Sample.options "3")) by reflexivity.
  assert (Hone : ∀ name gs, name ∈ section_names section →
            re_search Sample.RE_DBNAME_LABEL name = Some gs → length gs = 1%nat).
  { intros name gs Hin.
    change (section_names section) with ["jdbc[first]"; "oracle"; "MongoDB"] in Hin.
    repeat (apply elem_of_cons in Hin as [->|Hin]);
      [vm_compute; intros [= <-]; reflexivity
      |vm_compute; discriminate
      |vm_compute; discriminate
      |by apply elem_of_nil in Hin]. }
  assert (Hext : extraneous_config_of Sample.OPTION_KEYS (Sample.options "3")
                 = Ok extraneous) by (vm_compute; reflexivity).
  split; [exact Hfind|]. split; [exact Hone|]. split; [exact Hext|].
  destruct (process_dbs_targets Sample.OPTION_KEYS Sample.SUPPORTED_DBS
              Sample.RE_DBNAME_LABEL Sample.good_file section ∅
              (Sample.options "3") Hfind Hone) as (Hsome & _ & _).
  destruct (Hsome extraneous Hext) as (Hrun & _ & _ & Hlabels & _).
  split.
  - rewrite Hrun. vm_compute. reflexivity.
  - rewrite Hlabels. vm_compute. reflexivity.
Defined.

Lemma malformed_option_aborts_first_witness :
  ConfigParser.sections Sample.bad_file = [] ++ "oracle,db2[x]" :: [] ∧
  option_ok Sample.bad_file "oracle,db2[x]" ("trials", TInt) = false ∧
  spec_targets Sample.SUPPORTED_DBS Sample.RE_DBNAME_LABEL
    "oracle,db2[x]" ∅ ∅ = [] ∧
  (process_sections Sample.OPTION_KEYS Sample.SUPPORTED_DBS
     Sample.RE_DBNAME_LABEL Sample.bad_file).1 = [] ∧
  (process_sections Sample.OPTION_KEYS Sample.SUPPORTED_DBS
     Sample.RE_DBNAME_LABEL Sample.bad_file).2 = Raised (Exn "ValueError" "three").
Proof.
  assert (Hsecs : ConfigParser.sections Sample.bad_file = [] ++ "oracle,db2[x]" :: [])
    by reflexivity.
  assert (Hbad : option_ok Sample.bad_file "oracle,db2[x]" ("trials", TInt) = false)
    by (vm_compute; reflexivity).
  assert (Hitem : ("trials", TInt) ∈ Sample.OPTION_KEYS) by left.
  destruct (malformed_option_aborts_first Sample.OPTION_KEYS Sample.SUPPORTED_DBS
              Sample.RE_DBNAME_LABEL Sample.bad_file [] "oracle,db2[x]" [] [] []
              ("trials", TInt) Hsecs eq_refl Hitem Hbad) as (_ & Hout & _ & Hexn).
  split; [exact Hsecs|]. split; [exact Hbad|].
  split; [vm_compute; reflexivity|].
  split.
  - rewrite Hout. vm_compute. reflexivity.
  - apply Hexn. vm_compute. reflexivity.
Defined.

(** ** Sequencing of run steps *)

Section Sequencing.

Context {A B : Type}.
Implicit Types (m : M A) (f : A → M B) (st : state).

Lemma bind_ok m f st a :
  result (m st) = Ok a →
  (m ≫= f) st =
    Outcome (emitted (m st) ++ emitted (f a (after st (m st))))
      (store_after (f a (after st (m st))))
      (result (f a (after st (m st)))).
Proof. intros Hr. unfold mbind, M_bind. by rewrite Hr. Qed.

Lemma bind_not_ok m f st :
  is_ok (result (m st)) = false →
  emitted ((m ≫= f) st) = emitted (m st) ∧
  store_after ((m ≫= f) st) = store_after (m st) ∧
  is_ok (result ((m ≫= f) st)) = false ∧
  (∀ e, result (m st) = Raised e → result ((m ≫= f) st) = Raised e).
Proof.
  unfold mbind, M_bind. destruct (result (m st)) as [a|e|]; [done|..]; intros _.
  - repeat split. by intros ? [= ->].
  - by repeat split.
Qed.

Lemma emitted_bind m f st :
  emitted ((m ≫= f) st) =
    emitted (m st) ++
    match result (m st) with
    | Ok a => emitted (f a (after st (m st)))
    | _ => []
    end.
Proof.
  unfold mbind, M_bind.
  destruct (result (m st)); simpl; by rewrite ?app_nil_r.
Qed.

Lemma result_bind m f st :
  result ((m ≫= f) st) =
    match result (m st) with
    | Ok a => result (f a (after st (m st)))
    | Raised e => Raised e
    | OutOfFuel => OutOfFuel
    end.
Proof. unfold mbind, M_bind. by destruct (result (m st)). Qed.

Lemma store_bind m f st :
  store_after ((m ≫= f) st) =
    match result (m st) with
    | Ok a => store_after (f a (after st (m st)))
    | _ => store_after (m st)
    end.
Proof. unfold mbind, M_bind. by destruct (result (m st)). Qed.

Lemma result_bind_ok m f st b :
  result ((m ≫= f) st) = Ok b →
  ∃ a, result (m st) = Ok a ∧ result (f a (after st (m st))) = Ok b.
Proof.
  rewrite result_bind. destruct (result (m st)) as [a| |]; [|done..].
  intros Hb. by exists a.
Qed.

End Sequencing.

(** ** Views of a trace *)

Section Views.

Context {X : Type} (proj : event → option X).

Local Abbreviation view := (view proj).
Local Abbreviation silent := (silent proj).

Lemma view_app l1 l2 : view (l1 ++ l2) = view l1 ++ view l2.
Proof. apply omap_app. Qed.

Lemma view_bind {A B} (m : M A) (f : A → M B) st :
  view (emitted ((m ≫= f) st)) =
    view (emitted (m st)) ++
    match result (m st) with
    | Ok a => view (emitted (f a (after st (m st))))
    | _ => []
    end.
Proof.
  rewrite emitted_bind, view_app. by destruct (result (m st)).
Qed.

Lemma silent_ret {A} (a : A) : silent (mret a).
Proof. by intros st. Qed.

Lemma silent_lift {A} (r : res A) : silent (lift r).
Proof. by intros st. Qed.

Lemma silent_bind {A B} (m : M A) (f : A → M B) :
  silent m → (∀ a, silent (f a)) → silent (m ≫= f).
Proof.
  intros Hm Hf st. rewrite view_bind, Hm.
  destruct (result (m st)); [apply Hf|done..].
Qed.

Lemma silent_mark e : proj e = None → silent (mark e).
Proof. intros He st. unfold view. simpl. by rewrite He. Qed.

Lemma silent_for_each {A} (l : list A) (body : A → M unit) :
  (∀ x, silent (body x)) → silent (for_each l body).
Proof.
  intros Hb. induction l as [|x l IH]; [apply silent_ret|].
  apply silent_bind; [apply Hb|]. by intros _.
Qed.

Lemma silent_for_each_from {A} (l : list A) (body : nat → A → M unit) :
  (∀ i x, silent (body i x)) → ∀ start, silent (for_each_from start l body).
Proof.
  intros Hb. induction l as [|x l IH]; intros start; [apply silent_ret|].
  apply silent_bind; [apply Hb|]. intros _. apply IH.
Qed.

Section WithEnv.

Variable E : env.
Variable hooks : gmap string (list nat).

Lemma silent_call e : proj e = None → silent (call E e).
Proof. intros He st. unfold view. simpl. by rewrite He. Qed.

Lemma silent_popen c : proj (EvPopen c) = None → silent (popen E c).
Proof. intros He st. unfold view. simpl. by rewrite He. Qed.

Lemma silent_run_hooks location args :
  proj (EvRunHooks location args) = None →
  (∀ h, proj (EvHook h args) = None) →
  silent (run_hooks E hooks location args).
Proof.
  intros Hmark Hhook. unfold run_hooks.
  apply silent_bind; [by apply silent_mark|]. intros _.
  destruct (hooks !! PyStr.upper location); [|apply silent_ret].
  apply silent_for_each. intros h. by apply silent_call.
Qed.

(** What [__run_hooks] shows in a view that reads its entry only. *)
Lemma view_run_hooks location args st :
  (∀ h, proj (EvHook h args) = None) →
  view (emitted (run_hooks E hooks location args st)) =
    view [EvRunHooks location args].
Proof.
  intros Hhook. unfold run_hooks. rewrite view_bind. simpl.
  assert (Hs : silent (match hooks !! PyStr.upper location with
                       | Some hs => for_each hs (λ h, call E (EvHook h args))
                       | None => mret tt
                       end)).
  { destruct (hooks !! PyStr.upper location); [|apply silent_ret].
    apply silent_for_each. intros h. by apply silent_call. }
  rewrite Hs. by rewrite app_nil_r.
Qed.

End WithEnv.

End Views.

(** ** Steps that leave the statistics alone *)

Section KeepsStore.

Lemma keeps_ret {A} (a : A) : keeps_store (mret a).
Proof. by intros st. Qed.

Lemma keeps_bind {A B} (m : M A) (f : A → M B) :
  keeps_store m → (∀ a, keeps_store (f a)) → keeps_store (m ≫= f).
Proof.
  intros Hm Hf st. rewrite store_bind.
  destruct (result (m st)); [|apply Hm..].
  rewrite Hf. apply Hm.
Qed.

Lemma keeps_for_each {A} (l : list A) (body : A → M unit) :
  (∀ x, keeps_store (body x)) → keeps_store (for_each l body).
Proof.
  intros Hb. induction l as [|x l IH]; [apply keeps_ret|].
  apply keeps_bind; [apply Hb|]. by intros _.
Qed.

Lemma keeps_call E e : keeps_store (call E e).
Proof. by intros st. Qed.

Lemma keeps_run_hooks E hooks location args :
  keeps_store (run_hooks E hooks location args).
Proof.
  unfold run_hooks. apply keeps_bind; [by intros st|]. intros _.
  destruct (hooks !! PyStr.upper location); [|apply keeps_ret].
  apply keeps_for_each. intros h. apply keeps_call.
Qed.

End KeepsStore.

(** ** Hook dispatch *)

Section RunHooksProps.

Variable E : env.
Variable hooks : gmap string (list nat).

Lemma for_each_hook_calls (hs : list nat) (args : list arg) :
  ∀ st,
    let o := for_each hs (λ h, call E (EvHook h args)) st in
    ∃ n, (n ≤ length hs)%nat ∧
         emitted o = (λ h, EvHook h args) <$> take n hs ∧
         (result o = Ok tt → n = length hs) ∧
         ((∀ before h, h ∈ hs → raises E before (EvHook h args) = None) →
          n = length hs ∧ result o = Ok tt).
Proof.
  induction hs as [|h hs IH]; intros st o.
  - exists 0%nat. by repeat split.
  - subst o. cbn [for_each]. rewrite emitted_bind, result_bind. simpl.
    destruct (raises E (past st) (EvHook h args)) as [x|] eqn:Hr.
    + exists 1%nat. cbn [length]. split; [lia|]. split; [done|].
      split; [done|]. intros Hq. rewrite Hq in Hr by left. done.
    + set (st' := after st _).
      destruct (IH st') as (n & Hn & Hem & Hok & Hquiet).
      exists (S n). cbn [length]. split; [lia|]. split.
      { cbn [take]. rewrite fmap_cons. by rewrite Hem. }
      split.
      { intros Hres. by rewrite Hok. }
      intros Hq. destruct Hquiet as [-> Hres].
      { intros before h' Hin. apply Hq. by right. }
      done.
Qed.

(** What a dispatch shows in a view that reads the calls of its callbacks:
    its entry, then the calls of the first [n] registered callbacks, all of
    them when the dispatch returns. *)
Lemma view_run_hooks_calls {X} (proj : event → option X) location args
    (f : nat → X) st :
  (∀ h, proj (EvHook h args) = Some (f h)) →
  let o := run_hooks E hooks location args st in
  ∃ n, (n ≤ length (registered hooks location))%nat ∧
       view proj (emitted o) =
         view proj [EvRunHooks location args] ++
         (f <$> take n (registered hooks location)) ∧
       (result o = Ok tt → n = length (registered hooks location)).
Proof.
  intros Hcall o. subst o. unfold run_hooks, registered.
  rewrite view_bind, result_bind. cbn [mark emitted result].
  destruct (hooks !! PyStr.upper location) as [hs|];
    cbn [default from_option]; unfold id.
  - set (st' := after st _).
    destruct (for_each_hook_calls hs args st') as (n & Hn & Hem & Hok & _).
    exists n. split; [done|]. split; [|done].
    f_equal. rewrite Hem. clear Hem Hok Hn.
    unfold view. induction (take n hs) as [|h l IH]; [done|].
    rewrite fmap_cons. cbn [omap list_omap]. rewrite Hcall. cbn. by rewrite <- IH.
  - exists 0%nat. split; [done|]. split; [|done]. done.
Qed.

(** C8. [__run_hooks(location, args)] looks the location up in upper
    case. When it is in the hook table, the callbacks registered there
    are called in registration order, each once and each with the
    arguments given: the calls made are those of a prefix of the
    registered list, the whole list when the dispatch returns, and it
    returns when no callback raises. When it is not in the table, no
    callback is called and the dispatch returns without error. The
    dispatch leaves the statistics alone. *)
Theorem run_hooks_dispatch location args st :
  let o := run_hooks E hooks location args st in
  store_after o = store st ∧
  match hooks !! PyStr.upper location with
  | Some hs =>
      ∃ n, (n ≤ length hs)%nat ∧
           emitted o =
             EvRunHooks location args :: ((λ h, EvHook h args) <$> take n hs) ∧
           (result o = Ok tt → n = length hs) ∧
           ((∀ before h, h ∈ hs → raises E before (EvHook h args) = None) →
            emitted o = EvRunHooks location args :: ((λ h, EvHook h args) <$> hs) ∧
            result o = Ok tt)
  | None => emitted o = [EvRunHooks location args] ∧ result o = Ok tt
  end.
Proof.
  intros o. split; [apply keeps_run_hooks|].
  subst o. unfold run_hooks. rewrite emitted_bind, result_bind. simpl.
  destruct (hooks !! PyStr.upper location) as [hs|]; [|done].
  set (st' := after st _).
  destruct (for_each_hook_calls hs args st') as (n & Hn & Hem & Hok & Hquiet).
  exists n. split; [done|]. split; [by rewrite Hem|]. split; [done|].
  intros Hq. destruct (Hquiet Hq) as [-> Hres].
  rewrite Hem, firstn_all. done.
Qed.

End RunHooksProps.

Lemma run_hooks_dispatch_witness :
  let hooks : gmap string (list nat) := {[ "PRE_MPL" := [7; 3]%nat ]} in
  let args := [AInt 4; AInt 1; ADb 0] in
  (∀ before h, h ∈ [7; 3]%nat → raises Sample.quiet before (EvHook h args) = None) ∧
  emitted (run_hooks Sample.quiet hooks "pre_mpl" args Sample.start) =
    [EvRunHooks "pre_mpl" args; EvHook 7 args; EvHook 3 args] ∧
  result (run_hooks Sample.quiet hooks "pre_mpl" args Sample.start) = Ok tt ∧
  emitted (run_hooks Sample.quiet hooks "POST_MPL" args Sample.start) =
    [EvRunHooks "POST_MPL" args].
Proof.
  intros hooks args.
  assert (Hq : ∀ before h, h ∈ [7; 3]%nat →
                 raises Sample.quiet before (EvHook h args) = None) by reflexivity.
  split; [exact Hq|].
  pose proof (run_hooks_dispatch Sample.quiet hooks "pre_mpl" args Sample.start)
    as [_ Hpre].
  pose proof (run_hooks_dispatch Sample.quiet hooks "POST_MPL" args Sample.start)
    as [_ Hpost].
  change (hooks !! PyStr.upper "pre_mpl") with (Some [7; 3]%nat) in Hpre.
  change (hooks !! PyStr.upper "POST_MPL") with (@None (list nat)) in Hpost.
  destruct Hpre as (n & _ & _ & _ & Hall).
  destruct (Hall Hq) as [Hem Hres].
  split; [exact Hem|]. split; [exact Hres|]. exact (proj1 Hpost).
Defined.

(** ** The MPL sweep *)

Lemma arith_cons start step n :
  arith start step (S n) = start :: arith (start + step) step n.
Proof.
  unfold arith. cbn [seq]. rewrite fmap_cons, <- fmap_S_seq, <- list_fmap_compose.
  f_equal; [lia|]. apply list_fmap_ext. intros _ k _. simpl. lia.
Qed.

Lemma length_arith start step n : length (arith start step n) = n.
Proof. unfold arith. by rewrite length_fmap, length_seq. Qed.

Lemma view_executed_entered l :
  view executed_mpl l = (λ p, p.2) <$> view entered l.
Proof.
  unfold view. induction l as [|e l IH]; [done|].
  change (omap executed_mpl (e :: l)) with
    (match executed_mpl e with
     | Some y => y :: omap executed_mpl l
     | None => omap executed_mpl l
     end).
  change (omap entered (e :: l)) with
    (match entered e with
     | Some y => y :: omap entered l
     | None => omap entered l
     end).
  rewrite IH. unfold executed_mpl. by destruct (entered e) as [[[i trial] mpl]|].
Qed.

Lemma silent_addstats {X} (proj : event → option X) E i row :
  proj (EvAddStats i row) = None → silent proj (addstats E i row).
Proof.
  intros He st. unfold addstats, view.
  destruct (raises E (past st) (EvAddStats i row)); simpl; by rewrite He.
Qed.

Lemma silent_export_stats {X} (proj : event → option X) E i :
  (∀ snapshot, proj (EvExportStats i snapshot) = None) →
  silent proj (export_stats E i).
Proof. intros He st. unfold export_stats, view. simpl. by rewrite He. Qed.

Lemma view_call_then {X} (proj : event → option X) E e {B} (k : M B) st :
  silent proj k →
  view proj (emitted ((call E e;; k) st)) = view proj [e].
Proof.
  intros Hs. rewrite view_bind.
  change (emitted (call E e st)) with [e].
  destruct (result (call E e st)); by rewrite ?Hs, app_nil_r.
Qed.

(** Closes a goal [silent proj m] for a piece [m] of the run none of whose
    events the projection reads. *)
Ltac silence :=
  repeat first
    [ apply silent_ret
    | apply silent_lift
    | apply silent_call; reflexivity
    | apply silent_popen; reflexivity
    | apply silent_mark; reflexivity
    | apply silent_addstats; reflexivity
    | apply silent_export_stats; intros ?; reflexivity
    | apply silent_run_hooks; [reflexivity | intros ?; reflexivity]
    | apply silent_for_each; intros ?
    | match goal with
      | |- silent _ (if ?b then _ else _) => destruct b
      end
    | progress unfold log, makefpath, cmd_ycsb_load, cmd_ycsb_run, raw_log
    | apply silent_bind; [|intros ?] ].

Section SweepProps.

Variable E : env.
Variable STAT_REGEXPS : list (string * regex).
Variable TRACKED_STATS : gmap string (string → res pyval).
Variable hooks : gmap string (list nat).
Variables trials min_mpl max_mpl inc_mpl : DbSystem → Z.
Variable clean_data : DbSystem → bool.

Local Abbreviation measure := (measure E STAT_REGEXPS TRACKED_STATS clean_data).
Local Abbreviation mpl_body := (mpl_body E STAT_REGEXPS TRACKED_STATS hooks clean_data).
Local Abbreviation mpl_loop :=
  (mpl_loop E STAT_REGEXPS TRACKED_STATS hooks max_mpl inc_mpl clean_data).

Lemma view_measure_entered i db trial mpl st :
  view entered (emitted (measure i db trial mpl st)) = [(i, trial, mpl)].
Proof.
  unfold measure, log. rewrite view_call_then; [reflexivity|silence].
Qed.

Lemma silent_measure {X} (proj : event → option X) i db trial mpl :
  (∀ msg m t, proj (EvLog i msg m t) = None) →
  proj (EvClean i) = None →
  proj (EvCmdLoad i) = None →
  (∀ m, proj (EvCmdRun i m) = None) →
  (∀ c, proj (EvPopen c) = None) →
  (∀ text, proj (EvRawLog i text) = None) →
  silent proj (measure i db trial mpl).
Proof.
  intros Hlog Hclean Hload Hrun Hpopen Hraw. unfold measure.
  repeat first
    [ apply silent_ret | apply silent_lift
    | apply silent_call; first [apply Hlog|apply Hclean|apply Hload|apply Hrun|apply Hraw]
    | apply silent_popen; apply Hpopen
    | match goal with
      | |- silent _ (if ?b then _ else _) => destruct b
      end
    | progress unfold log, cmd_ycsb_load, cmd_ycsb_run, raw_log
    | apply silent_bind; [|intros ?] ].
Qed.

Lemma view_body_entered i db trial mpl st :
  view entered (emitted (mpl_body i db trial mpl st)) = [(i, trial, mpl)].
Proof.
  unfold mpl_body. rewrite view_bind, view_measure_entered.
  destruct (result _); [|done..].
  match goal with
  | |- context [view entered (emitted (?k ?s))] =>
      assert (Hs : silent entered k) by silence; rewrite Hs
  end.
  reflexivity.
Qed.

Lemma silent_body_pre_mpl i db trial mpl :
  silent pre_mpl_dispatch (mpl_body i db trial mpl).
Proof.
  unfold mpl_body. apply silent_bind; [by apply silent_measure|].
  intros row. silence.
Qed.

(** The sweep from [mpl] on: the body is entered for the first [K] terms
    of the sequence, all within the limit; the hook is dispatched for
    those and, unless the body of the last one failed, for one more. *)
Lemma mpl_loop_views i db trial fuel :
  ∀ mpl st,
    let o := mpl_loop fuel i db trial mpl st in
    ∃ K : nat,
      (K ≤ fuel)%nat ∧
      view entered (emitted o) =
        (λ m, (i, trial, m)) <$> arith mpl (inc_mpl db) K ∧
      (∀ k : nat, (k < K)%nat → mpl + Z.of_nat k * inc_mpl db ≤ max_mpl db) ∧
      (view pre_mpl_dispatch (emitted o) = arith mpl (inc_mpl db) K ∨
       view pre_mpl_dispatch (emitted o) = arith mpl (inc_mpl db) (S K)) ∧
      (result o = Ok tt →
       view pre_mpl_dispatch (emitted o) = arith mpl (inc_mpl db) (S K) ∧
       max_mpl db < mpl + Z.of_nat K * inc_mpl db).
Proof.
  induction fuel as [|fuel IH]; intros mpl st o; subst o.
  - exists 0%nat. cbn. repeat split; try done; try lia. by left.
  - cbn [mpl_loop].
    set (pre := run_hooks E hooks "PRE_MPL" [AInt mpl; AInt trial; ADb i]).
    assert (Hpre_e : silent entered pre) by (subst pre; silence).
    assert (Hpre_p : ∀ s, view pre_mpl_dispatch (emitted (pre s)) = [mpl]).
    { intros s. subst pre. by rewrite view_run_hooks. }
    rewrite !view_bind, result_bind, Hpre_e, Hpre_p.
    assert (Hone : arith mpl (inc_mpl db) 1 = [mpl]).
    { unfold arith. simpl. f_equal. lia. }
    destruct (result (pre st)) as [[]|e|] eqn:Hpre.
    2,3: exists 0%nat; rewrite Hone; cbn;
         repeat split; try done; try lia; by right.
    case_bool_decide as Hlim.
    { exists 0%nat. rewrite Hone. cbn.
      repeat split; try done; try lia. by right. }
    set (st1 := after st (pre st)).
    rewrite !view_bind, result_bind, view_body_entered, silent_body_pre_mpl.
    destruct (result (mpl_body i db trial mpl st1)) as [[]|e|] eqn:Hbody.
    2,3: exists 1%nat; rewrite Hone; cbn;
         repeat split; try done; try lia;
         [intros k Hk; replace k with 0%nat by lia; lia | by left].
    set (st2 := after st1 _).
    destruct (IH (mpl + inc_mpl db) st2) as (K & HK & Hent & Hlim' & Hdisp & Hok).
    exists (S K). rewrite !(arith_cons mpl). cbn [app].
    split; [lia|]. split.
    { rewrite fmap_cons. by rewrite Hent. }
    split.
    { intros [|k] Hk; [lia|]. specialize (Hlim' k ltac:(lia)). lia. }
    split.
    { destruct Hdisp as [-> | ->]; [by left|by right]. }
    intros Hres. destruct (Hok Hres) as [-> Hex]. split; [done|lia].
Qed.

(** *** Runs in which nothing raises *)

Lemma returns_ret {A} (a : A) : returns (mret a).
Proof. by intros st. Qed.

Lemma returns_bind {A B} (m : M A) (f : A → M B) :
  returns m → (∀ a, returns (f a)) → returns (m ≫= f).
Proof.
  intros Hm Hf st. rewrite result_bind. specialize (Hm st).
  destruct (result (m st)); [apply Hf|done..].
Qed.

Lemma returns_for_each {A} (l : list A) (body : A → M unit) :
  (∀ x, returns (body x)) → returns (for_each l body).
Proof.
  intros Hb. induction l as [|x l IH]; [apply returns_ret|].
  apply returns_bind; [apply Hb|]. by intros _.
Qed.

Lemma returns_unit (m : M unit) st : returns m → result (m st) = Ok tt.
Proof. intros Hm. specialize (Hm st). by destruct (result (m st)) as [[]| |]. Qed.

Section Quiet.

Hypothesis Hquiet : never_raises E.
Hypothesis Hextract : extraction_succeeds E STAT_REGEXPS TRACKED_STATS.

Lemma returns_call e : returns (call E e).
Proof. intros st. unfold call. simpl. by rewrite Hquiet. Qed.

Lemma returns_run_hooks location args :
  returns (run_hooks E hooks location args).
Proof.
  unfold run_hooks. apply returns_bind; [by intros st|]. intros _.
  destruct (hooks !! PyStr.upper location); [|apply returns_ret].
  apply returns_for_each. intros h. apply returns_call.
Qed.

(** The benchmark run of [measure]: the process output is logged and
    handed to the extraction, which succeeds on it. *)
Lemma returns_run_and_extract i mpl trial :
  returns (c ← cmd_ycsb_run E i mpl;
           out ← popen E c;
           text ← raw_log E i out;
           stats ← lift (extract_stats STAT_REGEXPS TRACKED_STATS text);
           mret (set_attr "trial" (VInt trial) (set_attr "mpl" (VInt mpl) stats))).
Proof.
  intros st. unfold cmd_ycsb_run, raw_log, popen, call, lift.
  unfold mbind, M_bind, mret, M_ret. cbn.
  repeat (rewrite ?Hquiet; cbn).
  pose proof (Hextract (past st ++ [EvCmdRun i mpl]) (YcsbRun i mpl)) as Hex.
  destruct (extract_stats STAT_REGEXPS TRACKED_STATS _); done.
Qed.

Lemma returns_load i :
  returns (c ← cmd_ycsb_load E i; out ← popen E c; raw_log E i out;; mret tt).
Proof.
  intros st. unfold cmd_ycsb_load, raw_log, popen, call.
  unfold mbind, M_bind, mret, M_ret. cbn.
  by repeat (rewrite ?Hquiet; cbn).
Qed.

Lemma returns_measure i db trial mpl : returns (measure i db trial mpl).
Proof.
  unfold measure, log.
  apply returns_bind; [apply returns_call|]. intros _.
  apply returns_bind.
  { destruct (clean_data db); [apply returns_call|apply returns_ret]. }
  intros _. apply returns_bind; [apply returns_call|]. intros _.
  apply returns_bind.
  { destruct (clean_data db); [apply returns_load|apply returns_ret]. }
  intros _. apply returns_bind; [apply returns_call|]. intros _.
  apply returns_run_and_extract.
Qed.

Lemma returns_body i db trial mpl : returns (mpl_body i db trial mpl).
Proof.
  unfold mpl_body. apply returns_bind; [apply returns_measure|]. intros row.
  apply returns_bind.
  { intros st. unfold addstats. by rewrite Hquiet. }
  intros _. apply returns_bind; [apply returns_run_hooks|]. intros _.
  apply returns_bind; [apply returns_call|]. intros _.
  intros st. unfold export_stats, call. simpl. by rewrite Hquiet.
Qed.

(** The sweep ends once a term of the sequence is over the limit and
    the fuel reaches it. *)
Lemma mpl_loop_returns i db trial (n : nat) :
  ∀ fuel mpl st,
    (n < fuel)%nat →
    max_mpl db < mpl + Z.of_nat n * inc_mpl db →
    result (mpl_loop fuel i db trial mpl st) = Ok tt.
Proof.
  induction n as [|n IH]; intros fuel mpl st Hfuel Hover;
    (destruct fuel as [|fuel]; [lia|]); cbn [mpl_loop];
    rewrite result_bind, (returns_unit _ _ (returns_run_hooks _ _)).
  - rewrite bool_decide_true by lia. done.
  - case_bool_decide; [done|].
    rewrite result_bind, (returns_unit _ _ (returns_body _ _ _ _)).
    apply IH; lia.
Qed.

End Quiet.

Lemma arith_snoc start step n :
  arith start step (S n) = arith start step n ++ [start + Z.of_nat n * step].
Proof. unfold arith. by rewrite seq_S, fmap_app. Qed.

(** C1. The MPL values for which the sweep body executes are the first
    [K] terms of the arithmetic sequence that starts at [min_mpl] with
    step [inc_mpl]; all of them are within [max_mpl] (a term equal to it
    included) and, when the sweep returns, the next term is the first one
    over [max_mpl]: it is never executed. The sweep returns as soon as
    some term is over the limit, the fuel reaches it and nothing raises.
    For 1, 5, 2 the executed values are 1, 3, 5; for 2, 2, 1 the value 2
    alone; from 3 with limit 2, none. *)
Theorem sweep_executes_arithmetic_sequence fuel i db trial st :
  let o := mpl_loop fuel i db trial (min_mpl db) st in
  (∃ K : nat,
     view executed_mpl (emitted o) = arith (min_mpl db) (inc_mpl db) K ∧
     (∀ k : nat, (k < K)%nat →
        min_mpl db + Z.of_nat k * inc_mpl db ≤ max_mpl db) ∧
     (result o = Ok tt →
      max_mpl db < min_mpl db + Z.of_nat K * inc_mpl db)) ∧
  (never_raises E → extraction_succeeds E STAT_REGEXPS TRACKED_STATS →
   ∀ n : nat, (n < fuel)%nat →
     max_mpl db < min_mpl db + Z.of_nat n * inc_mpl db →
     result o = Ok tt) ∧
  (min_mpl db = 1 → max_mpl db = 5 → inc_mpl db = 2 → result o = Ok tt →
   view executed_mpl (emitted o) = [1; 3; 5]) ∧
  (min_mpl db = 2 → max_mpl db = 2 → inc_mpl db = 1 → result o = Ok tt →
   view executed_mpl (emitted o) = [2]) ∧
  (min_mpl db = 3 → max_mpl db = 2 → view executed_mpl (emitted o) = []).
Proof.
  intros o.
  destruct (mpl_loop_views i db trial fuel (min_mpl db) st)
    as (K & _ & Hent & Hlim & _ & Hok).
  fold o in Hent, Hok.
  assert (Hexec : view executed_mpl (emitted o) = arith (min_mpl db) (inc_mpl db) K).
  { rewrite view_executed_entered, Hent, <- list_fmap_compose.
    apply list_fmap_id. }
  split; [|split; [|split; [|split]]].
  - exists K. split; [done|]. split; [done|]. intros Hres. by apply Hok.
  - intros Hq Hx n Hn Hover. by apply (mpl_loop_returns Hq Hx i db trial n).
  - intros Hmin Hmax Hinc Hres. rewrite Hexec.
    destruct (Hok Hres) as [_ Hover]. rewrite Hmin, Hmax, Hinc in *.
    assert (K = 3%nat) as ->; [|reflexivity].
    destruct (le_lt_dec K 3); [lia|].
    specialize (Hlim 3%nat ltac:(lia)). lia.
  - intros Hmin Hmax Hinc Hres. rewrite Hexec.
    destruct (Hok Hres) as [_ Hover]. rewrite Hmin, Hmax, Hinc in *.
    assert (K = 1%nat) as ->; [|reflexivity].
    destruct (le_lt_dec K 1); [lia|].
    specialize (Hlim 1%nat ltac:(lia)). lia.
  - intros Hmin Hmax. rewrite Hexec.
    assert (K = 0%nat) as ->; [|reflexivity].
    destruct K as [|K]; [done|].
    specialize (Hlim 0%nat ltac:(lia)). lia.
Qed.

(** The hook activity of a dispatch that returns is a whole dispatch. *)
Lemma view_run_hooks_activity location args st :
  result (run_hooks E hooks location args st) = Ok tt →
  view hook_activity (emitted (run_hooks E hooks location args st)) =
    whole_dispatch hooks location args.
Proof.
  intros Hres.
  destruct (view_run_hooks_calls E hooks hook_activity location args
              (λ h, Called h args) st) as (n & _ & Hview & Hn); [done|].
  rewrite Hview, (Hn Hres), firstn_all. done.
Qed.

(** The hook activity of a sweep body that returns is that of its
    [POST_MPL] dispatch. *)
Lemma view_body_activity i db trial mpl st :
  result (mpl_body i db trial mpl st) = Ok tt →
  view hook_activity (emitted (mpl_body i db trial mpl st)) =
    whole_dispatch hooks "POST_MPL" (mpl_args i trial mpl).
Proof.
  unfold mpl_body. intros Hres.
  apply result_bind_ok in Hres as (row & Hm & Hres).
  assert (Hsm : silent hook_activity (measure i db trial mpl))
    by (by apply silent_measure).
  rewrite view_bind, Hm, Hsm. cbn [app].
  set (st1 := after st _) in *.
  apply result_bind_ok in Hres as ([] & Ha & Hres).
  assert (Hsa : silent hook_activity (addstats E i row))
    by (by apply silent_addstats).
  rewrite view_bind, Ha, Hsa. cbn [app].
  set (st2 := after st1 _) in *.
  apply result_bind_ok in Hres as ([] & Hh & Hres).
  rewrite view_bind, Hh, (view_run_hooks_activity _ _ _ Hh).
  match goal with
  | |- context [view hook_activity (emitted (?k ?s))] =>
      assert (Hs : silent hook_activity k) by silence; rewrite Hs
  end.
  by rewrite app_nil_r.
Qed.

(** The hook activity of a sweep that returns: that of its executed steps,
    one after the other, and then the [PRE_MPL] dispatch for the next term
    of the sequence. *)
Lemma mpl_loop_activity i db trial fuel :
  ∀ mpl st,
    let o := mpl_loop fuel i db trial mpl st in
    result o = Ok tt →
    ∃ K : nat,
      view entered (emitted o) =
        (λ m, (i, trial, m)) <$> arith mpl (inc_mpl db) K ∧
      view hook_activity (emitted o) =
        concat (step_dispatches hooks i trial <$> arith mpl (inc_mpl db) K) ++
        whole_dispatch hooks "PRE_MPL"
          (mpl_args i trial (mpl + Z.of_nat K * inc_mpl db)).
Proof.
  induction fuel as [|fuel IH]; intros mpl st o Hres; subst o; [done|].
  cbn [mpl_loop] in *.
  apply result_bind_ok in Hres as ([] & Hpre & Hres).
  assert (Hpre_e : silent entered
                     (run_hooks E hooks "PRE_MPL" [AInt mpl; AInt trial; ADb i]))
    by silence.
  rewrite !view_bind, Hpre, Hpre_e, (view_run_hooks_activity _ _ _ Hpre).
  set (st1 := after st _) in *.
  case_bool_decide as Hlim.
  - exists 0%nat. split; [done|].
    change (view hook_activity (emitted ((mret tt : M unit) st1)))
      with (@nil hook_step).
    change (arith mpl (inc_mpl db) 0) with (@nil Z).
    rewrite app_nil_r. cbn [fmap list_fmap concat app].
    unfold mpl_args. do 3 f_equal. lia.
  - apply result_bind_ok in Hres as ([] & Hbody & Hres).
    rewrite !view_bind, Hbody, view_body_entered,
      (view_body_activity _ _ _ _ _ Hbody).
    destruct (IH _ _ Hres) as (K & Hent & Hact).
    exists (S K). rewrite Hent, Hact, arith_cons, !fmap_cons. cbn [concat app].
    split; [done|]. unfold step_dispatches. rewrite <- !app_assoc.
    do 4 f_equal. unfold mpl_args. do 2 f_equal. lia.
Qed.

(** C3. In the sweep of a trial, [PRE_MPL] is dispatched for every
    candidate value before the limit check: when the sweep returns, it was
    dispatched for every executed value and then once more, for the first
    value over [max_mpl], so the dispatches are one more than the executed
    steps. Every dispatch calls the callbacks registered at [PRE_MPL]: the
    hook activity of a sweep that returns is, for every executed value,
    the [PRE_MPL] dispatch with the calls of its callbacks and the
    [POST_MPL] dispatch with the calls of its own, and then the [PRE_MPL]
    dispatch with the calls of its callbacks for the value over the limit;
    so every callback registered at [PRE_MPL] is called with every
    candidate value, the one over the limit included. When the sweep does
    not return, [PRE_MPL] was dispatched for every executed value and at
    most once more. *)
Theorem pre_mpl_fires_for_every_candidate fuel i db trial st :
  let o := mpl_loop fuel i db trial (min_mpl db) st in
  ∃ K : nat,
    view executed_mpl (emitted o) = arith (min_mpl db) (inc_mpl db) K ∧
    (view pre_mpl_dispatch (emitted o) = arith (min_mpl db) (inc_mpl db) K ∨
     view pre_mpl_dispatch (emitted o) = arith (min_mpl db) (inc_mpl db) (S K)) ∧
    (result o = Ok tt →
     view pre_mpl_dispatch (emitted o) =
       view executed_mpl (emitted o) ++ [min_mpl db + Z.of_nat K * inc_mpl db] ∧
     max_mpl db < min_mpl db + Z.of_nat K * inc_mpl db ∧
     length (view pre_mpl_dispatch (emitted o)) =
       S (length (view executed_mpl (emitted o))) ∧
     view hook_activity (emitted o) =
       concat (step_dispatches hooks i trial
                 <$> arith (min_mpl db) (inc_mpl db) K) ++
       whole_dispatch hooks "PRE_MPL"
         (mpl_args i trial (min_mpl db + Z.of_nat K * inc_mpl db)) ∧
     ∀ mpl h,
       mpl ∈ arith (min_mpl db) (inc_mpl db) (S K) →
       h ∈ registered hooks "PRE_MPL" →
       EvHook h (mpl_args i trial mpl) ∈ emitted o).
Proof.
  intros o.
  destruct (mpl_loop_views i db trial fuel (min_mpl db) st)
    as (K & _ & Hent & _ & Hdisp & Hok).
  fold o in Hent, Hdisp, Hok.
  assert (Hexec : view executed_mpl (emitted o) = arith (min_mpl db) (inc_mpl db) K).
  { rewrite view_executed_entered, Hent, <- list_fmap_compose.
    apply list_fmap_id. }
  exists K. split; [done|]. split; [done|].
  intros Hres. destruct (Hok Hres) as [Hpre Hover].
  rewrite Hpre, Hexec. split; [apply arith_snoc|]. split; [done|].
  split; [by rewrite !length_arith|].
  destruct (mpl_loop_activity i db trial fuel (min_mpl db) st Hres)
    as (K' & Hent' & Hact).
  fold o in Hent', Hact.
  assert (K' = K) as ->.
  { rewrite Hent in Hent'. apply (f_equal length) in Hent'.
    by rewrite !length_fmap, !length_arith in Hent'. }
  split; [done|].
  intros mpl h Hmpl Hh.
  assert (Hcalled : Called h (mpl_args i trial mpl)
                    ∈ view hook_activity (emitted o)).
  { rewrite Hact. rewrite arith_snoc in Hmpl.
    apply elem_of_app in Hmpl as [Hmpl|Hmpl]; apply elem_of_app; [left|right].
    - apply list_elem_of_In, in_concat.
      exists (step_dispatches hooks i trial mpl). split.
      + apply list_elem_of_In, list_elem_of_fmap. by exists mpl.
      + apply list_elem_of_In. unfold step_dispatches, whole_dispatch.
        apply elem_of_app. left. right. apply list_elem_of_fmap. by exists h.
    - apply list_elem_of_singleton in Hmpl as ->.
      unfold whole_dispatch. right. apply list_elem_of_fmap. by exists h. }
  unfold view in Hcalled. apply list_elem_of_omap in Hcalled as (e & He & Hproj).
  destruct e; try discriminate Hproj. injection Hproj as -> ->. done.
Qed.

End SweepProps.

Lemma sweep_executes_arithmetic_sequence_witness :
  let db := Sample.target 1 1 5 2 true in
  let o := Sample.mpl_loop_with Sample.quiet ∅ 4 db 1 Sample.start in
  never_raises Sample.quiet ∧
  extraction_succeeds Sample.quiet Sample.STAT_REGEXPS Sample.TRACKED_STATS ∧
  result o = Ok tt ∧
  view executed_mpl (emitted o) = [1; 3; 5].
Proof.
  intros db o.
  assert (Hq : never_raises Sample.quiet) by (intros before e; reflexivity).
  assert (Hx : extraction_succeeds Sample.quiet Sample.STAT_REGEXPS
                 Sample.TRACKED_STATS)
    by (intros before c; vm_compute; reflexivity).
  destruct (sweep_executes_arithmetic_sequence Sample.quiet Sample.STAT_REGEXPS
              Sample.TRACKED_STATS ∅ (Sample.int_attr "min_mpl")
              (Sample.int_attr "max_mpl") (Sample.int_attr "inc_mpl")
              (Sample.bool_attr "clean_data") 4 0 db 1 Sample.start)
    as (_ & Hret & Hex & _).
  assert (Hres : result o = Ok tt).
  { apply (Hret Hq Hx 3%nat); [lia|vm_compute; reflexivity]. }
  split; [exact Hq|]. split; [exact Hx|]. split; [exact Hres|].
  apply Hex; [reflexivity..|exact Hres].
Defined.

Lemma pre_mpl_fires_for_every_candidate_witness :
  let db := Sample.target 1 1 5 2 true in
  let hooks : gmap string (list nat) :=
    <["PRE_MPL" := [7%nat]]> (<["POST_MPL" := [9%nat]]> ∅) in
  let o := Sample.mpl_loop_with Sample.quiet hooks 4 db 1 Sample.start in
  result o = Ok tt ∧
  view executed_mpl (emitted o) = [1; 3; 5] ∧
  view pre_mpl_dispatch (emitted o) = [1; 3; 5; 7] ∧
  length (view pre_mpl_dispatch (emitted o)) = S (length (view executed_mpl (emitted o))) ∧
  view hook_activity (emitted o) =
    [Dispatched "PRE_MPL" (mpl_args 0 1 1); Called 7 (mpl_args 0 1 1);
     Dispatched "POST_MPL" (mpl_args 0 1 1); Called 9 (mpl_args 0 1 1);
     Dispatched "PRE_MPL" (mpl_args 0 1 3); Called 7 (mpl_args 0 1 3);
     Dispatched "POST_MPL" (mpl_args 0 1 3); Called 9 (mpl_args 0 1 3);
     Dispatched "PRE_MPL" (mpl_args 0 1 5); Called 7 (mpl_args 0 1 5);
     Dispatched "POST_MPL" (mpl_args 0 1 5); Called 9 (mpl_args 0 1 5);
     Dispatched "PRE_MPL" (mpl_args 0 1 7); Called 7 (mpl_args 0 1 7)] ∧
  EvHook 7 [AInt 7; AInt 1; ADb 0] ∈ emitted o.
Proof.
  intros db hooks o.
  destruct (pre_mpl_fires_for_every_candidate Sample.quiet Sample.STAT_REGEXPS
              Sample.TRACKED_STATS hooks (Sample.int_attr "min_mpl")
              (Sample.int_attr "max_mpl") (Sample.int_attr "inc_mpl")
              (Sample.bool_attr "clean_data") 4 0 db 1 Sample.start)
    as (K & Hexec & _ & Hok).
  assert (Hres : result o = Ok tt) by (vm_compute; reflexivity).
  assert (Hexecuted : view executed_mpl (emitted o) = [1; 3; 5])
    by (vm_compute; reflexivity).
  destruct (Hok Hres) as (_ & _ & Hlen & Hact & Hcalls).
  assert (K = 3%nat) as ->.
  { apply (f_equal length) in Hexec. rewrite length_arith in Hexec.
    vm_compute in Hexec. by symmetry. }
  split; [exact Hres|]. split; [exact Hexecuted|].
  split; [vm_compute; reflexivity|]. split; [exact Hlen|].
  split.
  - subst o. unfold Sample.mpl_loop_with. rewrite Hact. vm_compute. reflexivity.
  - apply (Hcalls 7 7%nat).
    + vm_compute. do 3 right. left.
    + vm_compute. left.
Defined.

(** ** The run loop *)

Section RunProps.

Variable E : env.
Variable STAT_REGEXPS : list (string * regex).
Variable TRACKED_STATS : gmap string (string → res pyval).
Variable hooks : gmap string (list nat).
Variables trials min_mpl max_mpl inc_mpl : DbSystem → Z.
Variable clean_data : DbSystem → bool.

Local Abbreviation measure := (measure E STAT_REGEXPS TRACKED_STATS clean_data).
Local Abbreviation mpl_body := (mpl_body E STAT_REGEXPS TRACKED_STATS hooks clean_data).
Local Abbreviation mpl_loop :=
  (mpl_loop E STAT_REGEXPS TRACKED_STATS hooks max_mpl inc_mpl clean_data).
Local Abbreviation trial_body :=
  (trial_body E STAT_REGEXPS TRACKED_STATS hooks min_mpl max_mpl inc_mpl clean_data).
Local Abbreviation db_trials :=
  (db_trials E STAT_REGEXPS TRACKED_STATS hooks trials min_mpl max_mpl inc_mpl
     clean_data).
Local Abbreviation db_body :=
  (db_body E STAT_REGEXPS TRACKED_STATS hooks trials min_mpl max_mpl inc_mpl
     clean_data).
Local Abbreviation run :=
  (run E STAT_REGEXPS TRACKED_STATS hooks trials min_mpl max_mpl inc_mpl
     clean_data).

Lemma silent_mpl_loop {X} (proj : event → option X) i db trial :
  (∀ mpl, silent proj (run_hooks E hooks "PRE_MPL" [AInt mpl; AInt trial; ADb i])) →
  (∀ mpl, silent proj (mpl_body i db trial mpl)) →
  ∀ fuel mpl, silent proj (mpl_loop fuel i db trial mpl).
Proof.
  intros Hpre Hbody. induction fuel as [|fuel IH]; intros mpl.
  - apply silent_lift.
  - cbn [mpl_loop]. apply silent_bind; [apply Hpre|]. intros _.
    case_bool_decide; [apply silent_ret|].
    apply silent_bind; [apply Hbody|]. intros _. apply IH.
Qed.

(** *** Cleanup *)

Lemma silent_body_cleanup i db trial mpl :
  silent cleanup_of (mpl_body i db trial mpl).
Proof.
  unfold mpl_body. apply silent_bind; [by apply silent_measure|].
  intros row. silence.
Qed.

Lemma silent_db_trials_cleanup fuel i db :
  silent cleanup_of (db_trials fuel i db).
Proof.
  unfold db_trials, trial_body. silence.
  apply silent_mpl_loop; [intros mpl; silence|apply silent_body_cleanup].
Qed.

Lemma db_body_cleanup fuel i db st :
  let o1 := db_trials fuel i db st in
  let o := db_body fuel i db st in
  match result o1 with
  | Ok _ =>
      ∃ post, emitted o = emitted o1 ++ EvCleanup i :: post ∧
              view cleanup_of post = [] ∧
              view cleanup_of (emitted o) = [i]
  | _ =>
      emitted o = emitted o1 ∧ is_ok (result o) = false ∧
      (∀ e, result o1 = Raised e → result o = Raised e) ∧
      view cleanup_of (emitted o) = []
  end.
Proof.
  intros o1 o. subst o o1. unfold db_body.
  pose proof (silent_db_trials_cleanup fuel i db st) as Hs.
  assert (Hh : silent cleanup_of (run_hooks E hooks "POST_DB" [ADb i]))
    by silence.
  destruct (result (db_trials fuel i db st)) as [[]|e|] eqn:Hr.
  - rewrite (bind_ok _ _ _ _ Hr). cbn [emitted].
    set (st1 := after st _).
    rewrite emitted_bind. change (emitted (call E (EvCleanup i) st1)) with [EvCleanup i].
    set (post := match result (call E (EvCleanup i) st1) with
                 | Ok a => _
                 | _ => []
                 end).
    assert (Hpost : view cleanup_of post = []).
    { subst post. destruct (result (call E (EvCleanup i) st1)); [apply Hh|done..]. }
    exists post. split; [done|]. split; [done|].
    rewrite !view_app, Hs, Hpost. done.
  - destruct (bind_not_ok (db_trials fuel i db)
                (λ _, call E (EvCleanup i);; run_hooks E hooks "POST_DB" [ADb i]) st)
      as (Hem & _ & Hnok & Hexn); [by rewrite Hr|].
    rewrite Hem, Hs. split; [done|]. split; [done|]. split; [|done].
    intros e' [= <-]. by apply Hexn.
  - destruct (bind_not_ok (db_trials fuel i db)
                (λ _, call E (EvCleanup i);; run_hooks E hooks "POST_DB" [ADb i]) st)
      as (Hem & _ & Hnok & Hexn); [by rewrite Hr|].
    rewrite Hem, Hs. by repeat split.
Qed.

Lemma db_body_cleanup_view fuel i db st :
  (view cleanup_of (emitted (db_body fuel i db st)) = [i] ∨
   view cleanup_of (emitted (db_body fuel i db st)) = []) ∧
  (result (db_body fuel i db st) = Ok tt →
   view cleanup_of (emitted (db_body fuel i db st)) = [i]).
Proof.
  pose proof (db_body_cleanup fuel i db st) as H. cbv zeta in H.
  destruct (result (db_trials fuel i db st)) as [[]|e|].
  - destruct H as (post & _ & _ & ->). split; [by left|done].
  - destruct H as (_ & Hnok & _ & ->). split; [by right|].
    intros Hr. by rewrite Hr in Hnok.
  - destruct H as (_ & Hnok & _ & ->). split; [by right|].
    intros Hr. by rewrite Hr in Hnok.
Qed.

Lemma for_each_db_cleanup fuel dbs :
  ∀ start st,
    let o := for_each_from start dbs (db_body fuel) st in
    ∃ n, (n ≤ length dbs)%nat ∧
         view cleanup_of (emitted o) = seq start n ∧
         (result o = Ok tt → n = length dbs).
Proof.
  induction dbs as [|db dbs IH]; intros start st o; subst o.
  - exists 0%nat. by repeat split.
  - cbn [for_each_from]. rewrite view_bind, result_bind.
    destruct (db_body_cleanup_view fuel start db st) as [Hview Hok].
    destruct (result (db_body fuel start db st)) as [[]|e|] eqn:Hr.
    + rewrite (Hok eq_refl).
      set (st' := after st _).
      destruct (IH (S start) st') as (n & Hn & Hv & Hres).
      exists (S n). cbn [length seq]. split; [lia|]. split.
      { cbn. by rewrite Hv. }
      intros Hr'. by rewrite Hres.
    + destruct Hview as [-> | ->].
      * exists 1%nat. cbn [length]. split; [lia|]. split; [done|]. done.
      * exists 0%nat. cbn [length]. split; [lia|]. split; [done|]. done.
    + destruct Hview as [-> | ->].
      * exists 1%nat. cbn [length]. split; [lia|]. split; [done|]. done.
      * exists 0%nat. cbn [length]. split; [lia|]. split; [done|]. done.
Qed.

(** C2, as the code has it. For every target the run loop processes,
    [cleanup] is called at most once, and exactly once, after the events
    of the target's setup and trial loop, when these return. When the
    trial loop raises, the error leaves the loop body at once: it is the
    result of the body and [cleanup] is not called. Over a whole run the
    targets cleaned up are the first [n] of the list, each once and in
    order, and all of them when the run returns. *)
Theorem cleanup_once_after_returning_trials fuel :
  (∀ i db st,
     let o1 := db_trials fuel i db st in
     let o := db_body fuel i db st in
     view cleanup_of (emitted o1) = [] ∧
     match result o1 with
     | Ok _ =>
         ∃ post, emitted o = emitted o1 ++ EvCleanup i :: post ∧
                 view cleanup_of post = [] ∧
                 view cleanup_of (emitted o) = [i]
     | _ =>
         emitted o = emitted o1 ∧ is_ok (result o) = false ∧
         (∀ e, result o1 = Raised e → result o = Raised e) ∧
         view cleanup_of (emitted o) = []
     end) ∧
  (∀ dbs st,
     let o := run fuel dbs st in
     ∃ n, (n ≤ length dbs)%nat ∧
          view cleanup_of (emitted o) = seq 0 n ∧
          (result o = Ok tt → n = length dbs)).
Proof.
  split.
  - intros i db st o1 o. split; [apply silent_db_trials_cleanup|].
    apply db_body_cleanup.
  - intros dbs st o. subst o. unfold run.
    assert (Hpre : silent cleanup_of (run_hooks E hooks "PRE_RUN" [])) by silence.
    assert (Hpost : silent cleanup_of (run_hooks E hooks "POST_RUN" [])) by silence.
    rewrite view_bind, result_bind, Hpre.
    destruct (result (run_hooks E hooks "PRE_RUN" [] st)) as [[]|e|].
    2,3: exists 0%nat; cbn; repeat split; [lia|done].
    set (st1 := after st _).
    rewrite view_bind, result_bind.
    destruct (for_each_db_cleanup fuel dbs 0%nat st1) as (n & Hn & Hv & Hres).
    exists n. split; [done|]. rewrite Hv.
    destruct (result (for_each_from 0 dbs (db_body fuel) st1)) as [[]|e|].
    + rewrite Hpost, app_nil_r. split; [done|]. intros _. by apply Hres.
    + rewrite app_nil_r. split; [done|]. done.
    + rewrite app_nil_r. split; [done|]. done.
Qed.

(** *** Iterations *)

Lemma iterations_nil whole : iterations whole [].
Proof. exists []. by split. Qed.

Lemma iterations_one (whole : list milestone → Prop) u :
  whole u → iterations whole u.
Proof. intros Hu. exists [u]. split; [by constructor|]. simpl. by rewrite app_nil_r. Qed.

Lemma iterations_app whole l1 l2 :
  iterations whole l1 → iterations whole l2 → iterations whole (l1 ++ l2).
Proof.
  intros (us1 & H1 & ->) (us2 & H2 & ->). exists (us1 ++ us2).
  split; [by apply Forall_app|]. by rewrite concat_app.
Qed.

Lemma cut_short_app whole l1 l2 :
  iterations whole l1 → cut_short whole l2 → cut_short whole (l1 ++ l2).
Proof.
  intros (us1 & H1 & ->) (us2 & t & rest & H2 & -> & Hu).
  exists (us1 ++ us2), t, rest.
  split; [by apply Forall_app|]. split; [|done].
  by rewrite concat_app, app_assoc.
Qed.

Section InIterations.

Variable proj : event → option milestone.
Variable whole : list milestone → Prop.

Lemma in_iterations_silent {A} (m : M A) :
  silent proj m → in_iterations proj whole m.
Proof.
  intros Hs st. rewrite Hs. split; [left|intros _]; apply iterations_nil.
Qed.

Lemma in_iterations_bind {A B} (m : M A) (f : A → M B) :
  in_iterations proj whole m → (∀ a, in_iterations proj whole (f a)) →
  in_iterations proj whole (m ≫= f).
Proof.
  intros Hm Hf st. rewrite view_bind, result_bind.
  destruct (Hm st) as [Hany Hok].
  destruct (result (m st)) as [a|e|].
  - specialize (Hok eq_refl).
    destruct (Hf a (after st (m st))) as [Hany' Hok'].
    split.
    + destruct Hany' as [Hi|Hc];
        [left; by apply iterations_app|right; by apply cut_short_app].
    + intros Hr. apply iterations_app; [done|by apply Hok'].
  - rewrite app_nil_r. by split.
  - rewrite app_nil_r. by split.
Qed.

Lemma in_iterations_for_each {A} (l : list A) (body : A → M unit) :
  (∀ x, in_iterations proj whole (body x)) →
  in_iterations proj whole (for_each l body).
Proof.
  intros Hb. induction l as [|x l IH].
  - apply in_iterations_silent, silent_ret.
  - apply in_iterations_bind; [apply Hb|]. by intros _.
Qed.

Lemma in_iterations_for_each_from {A} (l : list A) (body : nat → A → M unit) :
  (∀ i x, in_iterations proj whole (body i x)) →
  ∀ start, in_iterations proj whole (for_each_from start l body).
Proof.
  intros Hb. induction l as [|x l IH]; intros start.
  - apply in_iterations_silent, silent_ret.
  - apply in_iterations_bind; [apply Hb|]. intros _. apply IH.
Qed.

Lemma in_iterations_mpl_loop i db trial :
  (∀ mpl, silent proj (run_hooks E hooks "PRE_MPL" [AInt mpl; AInt trial; ADb i])) →
  (∀ mpl, in_iterations proj whole (mpl_body i db trial mpl)) →
  ∀ fuel mpl, in_iterations proj whole (mpl_loop fuel i db trial mpl).
Proof.
  intros Hpre Hbody. induction fuel as [|fuel IH]; intros mpl.
  - apply in_iterations_silent, silent_lift.
  - cbn [mpl_loop].
    apply in_iterations_bind; [apply in_iterations_silent, Hpre|]. intros _.
    case_bool_decide; [apply in_iterations_silent, silent_ret|].
    apply in_iterations_bind; [apply Hbody|]. intros _. apply IH.
Qed.

(** The row that [measure] returns is the row of its pair. *)
Lemma measure_row i db trial mpl st row :
  result (measure i db trial mpl st) = Ok row → row_of trial mpl row.
Proof.
  unfold measure. intros H.
  repeat (apply result_bind_ok in H as (? & _ & H)).
  injection H as <-. unfold row_of, set_attr. split.
  - rewrite lookup_insert_ne by done. apply lookup_insert_eq.
  - apply lookup_insert_eq.
Qed.

Lemma addstats_ok i row st :
  emitted (addstats E i row st) = [EvAddStats i row] ∧
  (is_ok (result (addstats E i row st)) = true →
   store_after (addstats E i row st) = <[i := (store st !!! i) ++ [row]]> (store st)).
Proof.
  unfold addstats. by destruct (raises E (past st) (EvAddStats i row)).
Qed.

(** The milestones of one iteration: what the body shows is a beginning
    of [pre], the append, [mid] and the export, and all of it when the
    body returns; [pre] is what the measuring part shows and [mid] what
    the [POST_MPL] dispatch shows when it returns, a beginning of it
    otherwise. *)
Lemma body_milestones i db trial mpl pre mid :
  (∀ st, view proj (emitted (measure i db trial mpl st)) = pre) →
  (∀ st, ∃ left,
     view proj (emitted (run_hooks E hooks "POST_MPL"
                           [AInt mpl; AInt trial; ADb i] st)) ++ left = mid ∧
     (result (run_hooks E hooks "POST_MPL" [AInt mpl; AInt trial; ADb i] st)
      = Ok tt → left = [])) →
  (∀ msg, proj (EvLog i msg None None) = None) →
  (∀ row, proj (EvAddStats i row) = Some (MAppend i row)) →
  (∀ snapshot, proj (EvExportStats i snapshot) = Some (MExport i snapshot)) →
  ∀ st,
    let o := mpl_body i db trial mpl st in
    ∃ row snapshot rest,
      row_of trial mpl row ∧ last snapshot = Some row ∧
      view proj (emitted o) ++ rest =
        pre ++ [MAppend i row] ++ mid ++ [MExport i snapshot] ∧
      (result o = Ok tt → rest = []).
Proof.
  intros Hpre Hmid Hlog Hadd Hexp st o. subst o. unfold mpl_body.
  rewrite view_bind, result_bind, Hpre.
  destruct (result (measure i db trial mpl st)) as [row|e|] eqn:Hm.
  2,3: exists (set_attr "trial" (VInt trial) (set_attr "mpl" (VInt mpl) ∅)),
         [set_attr "trial" (VInt trial) (set_attr "mpl" (VInt mpl) ∅)],
         ([MAppend i (set_attr "trial" (VInt trial) (set_attr "mpl" (VInt mpl) ∅))]
          ++ mid ++
          [MExport i [set_attr "trial" (VInt trial) (set_attr "mpl" (VInt mpl) ∅)]]);
       split;
         [split; unfold set_attr;
            [rewrite lookup_insert_ne by done; apply lookup_insert_eq
            |apply lookup_insert_eq]
         |split; [done|split; [by rewrite (app_nil_r pre)|done]]].
  pose proof (measure_row _ _ _ _ _ _ Hm) as Hrow.
  set (st1 := after st _).
  destruct (addstats_ok i row st1) as [Hae Has].
  rewrite view_bind, result_bind, Hae. unfold view at 1. cbn [omap list_omap].
  rewrite Hadd.
  destruct (result (addstats E i row st1)) as [[]|e|] eqn:Ha.
  2,3: exists row, [row], (mid ++ [MExport i [row]]);
       split; [done|]; split; [done|];
       split; [by rewrite <- !app_assoc|done].
  specialize (Has eq_refl).
  set (st2 := after st1 _).
  rewrite view_bind, result_bind.
  destruct (Hmid st2) as (left & Hleft & Hwhole).
  pose proof (keeps_run_hooks E hooks "POST_MPL" [AInt mpl; AInt trial; ADb i] st2)
    as Hk2.
  destruct (result (run_hooks E hooks "POST_MPL" _ st2)) as [[]|e|] eqn:Hh.
  2,3: exists row, [row], (left ++ [MExport i [row]]);
       split; [done|]; split; [done|];
       split; [by rewrite <- Hleft, (app_nil_r (view proj _)), <- !app_assoc|done].
  rewrite (Hwhole eq_refl), app_nil_r in Hleft. rewrite Hleft.
  set (st3 := after st2 _).
  rewrite view_bind, result_bind. unfold log.
  change (emitted (call E (EvLog i "Exporting run stats..." None None) st3))
    with [EvLog i "Exporting run stats..." None None].
  unfold view at 1. cbn [omap list_omap]. rewrite Hlog.
  destruct (result (call E (EvLog i "Exporting run stats..." None None) st3))
    as [[]|e|] eqn:Hl.
  2,3: exists row, [row], [MExport i [row]];
       split; [done|]; split; [done|];
       split; [by rewrite <- !app_assoc|done].
  set (st4 := after st3 _).
  unfold export_stats. change (emitted (call E ?e st4)) with [e].
  unfold view. cbn [omap list_omap]. rewrite Hexp.
  exists row, (store st4 !!! i), []. split; [done|]. split.
  { subst st4 st3. cbn [after store]. rewrite (keeps_call E _ _).
    cbn [after store]. rewrite Hk2. subst st2. cbn [after store].
    rewrite Has, lookup_total_insert_eq. apply last_snoc. }
  split; [|done]. by rewrite !app_nil_r.
Qed.

Lemma body_in_iterations i db trial mpl pre mid :
  (∀ st, view proj (emitted (measure i db trial mpl st)) = pre) →
  (∀ st, view proj (emitted (run_hooks E hooks "POST_MPL"
                               [AInt mpl; AInt trial; ADb i] st)) = mid) →
  (∀ msg, proj (EvLog i msg None None) = None) →
  (∀ row, proj (EvAddStats i row) = Some (MAppend i row)) →
  (∀ snapshot, proj (EvExportStats i snapshot) = Some (MExport i snapshot)) →
  (∀ row snapshot, row_of trial mpl row → last snapshot = Some row →
     whole (pre ++ [MAppend i row] ++ mid ++ [MExport i snapshot])) →
  in_iterations proj whole (mpl_body i db trial mpl).
Proof.
  intros Hpre Hmid Hlog Hadd Hexp Hunit st.
  assert (Hmid' : ∀ st, ∃ left,
            view proj (emitted (run_hooks E hooks "POST_MPL"
                                  [AInt mpl; AInt trial; ADb i] st)) ++ left = mid ∧
            (result (run_hooks E hooks "POST_MPL" [AInt mpl; AInt trial; ADb i] st)
             = Ok tt → left = [])).
  { intros st'. exists []. by rewrite app_nil_r, Hmid. }
  destruct (body_milestones i db trial mpl pre mid Hpre Hmid' Hlog Hadd Hexp st)
    as (row & snapshot & rest & Hrow & Hlast & Hview & Hok).
  specialize (Hunit row snapshot Hrow Hlast). rewrite <- Hview in Hunit.
  split.
  - right. exists [], (view proj (emitted (mpl_body i db trial mpl st))), rest.
    by repeat split.
  - intros Hr. apply iterations_one.
    rewrite Hok in Hunit; [by rewrite app_nil_r in Hunit|].
    by destruct (result (mpl_body i db trial mpl st)) as [[]| |].
Qed.

End InIterations.

(** Proves that a piece of the run proceeds by whole iterations, from
    the same fact [Hbody] for the sweep body. *)
Ltac iterate Hbody :=
  repeat first
    [ solve [apply in_iterations_silent; silence]
    | apply in_iterations_for_each; intros ?
    | apply in_iterations_for_each_from; intros ? ?
    | apply in_iterations_mpl_loop; [intros ?; silence | intros ?; apply Hbody]
    | progress unfold run, db_body, db_trials, trial_body
    | apply in_iterations_bind; [|intros ?] ].

(** *** Durability: entering, appending, exporting *)

Lemma view_measure_durability i db trial mpl st :
  view durability_step (emitted (measure i db trial mpl st)) =
    [MEnter i trial mpl].
Proof.
  unfold measure, log. rewrite view_call_then; [reflexivity|silence].
Qed.

Lemma body_durable_milestones i db trial mpl st :
  let o := mpl_body i db trial mpl st in
  ∃ row snapshot rest,
    row_of trial mpl row ∧ last snapshot = Some row ∧
    view durability_step (emitted o) ++ rest =
      [MEnter i trial mpl; MAppend i row; MExport i snapshot] ∧
    (result o = Ok tt → rest = []).
Proof.
  apply (body_milestones durability_step i db trial mpl [MEnter i trial mpl] []);
    try done.
  - apply view_measure_durability.
  - assert (Hs : silent durability_step
                   (run_hooks E hooks "POST_MPL" [AInt mpl; AInt trial; ADb i]))
      by silence.
    intros st'. exists []. by rewrite Hs.
Qed.

Lemma body_durable i db trial mpl :
  in_iterations durability_step durable_unit (mpl_body i db trial mpl).
Proof.
  apply (body_in_iterations _ _ i db trial mpl [MEnter i trial mpl] []);
    try done.
  - apply view_measure_durability.
  - assert (Hs : silent durability_step
                   (run_hooks E hooks "POST_MPL" [AInt mpl; AInt trial; ADb i]))
      by silence.
    apply Hs.
  - intros row snapshot Hrow Hlast. by exists i, trial, mpl, row, snapshot.
Qed.

Lemma run_durable fuel dbs :
  in_iterations durability_step durable_unit (run fuel dbs).
Proof. iterate body_durable. Qed.

Lemma omap_through {X Y} (g : event → option X) (f : X → option Y)
    (h : event → option Y) (l : list event) :
  (∀ e, h e = g e ≫= f) → omap h l = omap f (omap g l).
Proof.
  intros Hh. induction l as [|e l IH]; [done|].
  change (e :: l) with ([e] ++ l). rewrite !omap_app, IH. f_equal.
  cbn. rewrite Hh. destruct (g e) as [x|]; [|done].
  cbn. by destruct (f x).
Qed.

Lemma view_entered_durability l :
  view entered l = omap entered_milestone (view durability_step l).
Proof.
  apply omap_through.
  intros e. destruct e as [| | | | |i msg [m|] [t|]| | | | | | | |]; try done.
  cbn. by destruct (decide (msg = cleaning_msg)).
Qed.

Lemma view_exported_durability l :
  view exported_for l = omap exported_milestone (view durability_step l).
Proof.
  apply omap_through.
  intros e. destruct e as [| | | | |i msg [m|] [t|]| | | | | | | |]; try done.
  cbn. by destruct (decide (msg = cleaning_msg)).
Qed.

Lemma durable_unit_pairs u :
  durable_unit u →
  ∃ p, omap entered_milestone u = [p] ∧ omap exported_milestone u = [p].
Proof.
  intros (i & trial & mpl & row & snapshot & -> & [Hmpl Htrial] & Hlast).
  exists (i, trial, mpl). split; [done|].
  cbn. unfold exported_pair, pair_of_row. rewrite Hlast. cbn.
  by rewrite Hmpl, Htrial.
Qed.

Lemma iterations_pairs l :
  iterations durable_unit l →
  omap exported_milestone l = omap entered_milestone l.
Proof.
  intros (us & Hus & ->). induction Hus as [|u us Hu _ IH]; [done|].
  cbn [concat]. rewrite !omap_app, IH.
  destruct (durable_unit_pairs u Hu) as (p & -> & ->). done.
Qed.

Lemma cut_short_pairs l :
  cut_short durable_unit l →
  omap exported_milestone l = omap entered_milestone l ∨
  ∃ p, omap entered_milestone l = omap exported_milestone l ++ [p].
Proof.
  intros (us & t & rest & Hus & -> & Hu).
  rewrite !omap_app, (iterations_pairs (concat us)) by (by exists us).
  destruct Hu as (i & trial & mpl & row & snapshot & Heq & [Hmpl Htrial] & Hlast).
  assert (Hx : exported_pair i snapshot = Some (i, trial, mpl)).
  { unfold exported_pair, pair_of_row. rewrite Hlast. cbn.
    by rewrite Hmpl, Htrial. }
  destruct t as [|m1 [|m2 [|m3 t]]]; simpl in Heq.
  - by left.
  - injection Heq as -> _. right. exists (i, trial, mpl). cbn.
    by rewrite app_nil_r.
  - injection Heq as -> -> _. right. exists (i, trial, mpl). cbn.
    by rewrite app_nil_r.
  - injection Heq as -> -> -> Hnil. apply app_eq_nil in Hnil as [-> _].
    left. cbn. by rewrite Hx.
Qed.

(** C4. For every executed (trial, mpl) pair the statistics export is
    invoked once, and only after the row of that pair, with its [mpl] and
    [trial] fields set, has been appended to the target's statistics: the
    row is the last one of what is exported. In one iteration the three
    steps (the body is entered, the row is appended, the statistics are
    exported) occur in this order, each at most once, and all of them when
    the body returns. Over a whole run they form whole iterations one
    after the other, followed by the beginning of one more only when the
    run does not return: the exports of a run that returns are for the
    executed pairs, one each and in the same order, and those of a run that
    does not return are for all executed pairs or for all but the last. *)
Theorem export_once_per_pair_after_append fuel :
  (∀ i db trial mpl st,
     let o := mpl_body i db trial mpl st in
     ∃ row snapshot rest,
       row_of trial mpl row ∧ last snapshot = Some row ∧
       view durability_step (emitted o) ++ rest =
         [MEnter i trial mpl; MAppend i row; MExport i snapshot] ∧
       (result o = Ok tt → rest = [])) ∧
  (∀ dbs st,
     let o := run fuel dbs st in
     (iterations durable_unit (view durability_step (emitted o)) ∨
      cut_short durable_unit (view durability_step (emitted o))) ∧
     (view exported_for (emitted o) = view entered (emitted o) ∨
      ∃ p, view entered (emitted o) = view exported_for (emitted o) ++ [p]) ∧
     (result o = Ok tt →
      iterations durable_unit (view durability_step (emitted o)) ∧
      view exported_for (emitted o) = view entered (emitted o))).
Proof.
  split.
  - apply body_durable_milestones.
  - intros dbs st o. destruct (run_durable fuel dbs st) as [Hany Hok].
    rewrite view_entered_durability, view_exported_durability.
    split; [done|]. split.
    + destruct Hany as [Hi|Hc]; [left; by apply iterations_pairs|].
      by apply cut_short_pairs.
    + intros Hr. assert (Hi : iterations durable_unit
                                (view durability_step (emitted o))).
      { apply Hok. subst o. by rewrite Hr. }
      split; [done|]. by apply iterations_pairs.
Qed.

(** *** The hook bracket: appending, [POST_MPL], exporting *)

Lemma silent_measure_bracket i db trial mpl :
  silent bracket_step (measure i db trial mpl).
Proof. by apply silent_measure. Qed.

Lemma view_post_mpl_bracket i trial mpl st :
  view bracket_step
    (emitted (run_hooks E hooks "POST_MPL" [AInt mpl; AInt trial; ADb i] st)) =
    [MPostMpl i trial mpl].
Proof. by rewrite view_run_hooks. Qed.

Lemma body_bracket_milestones i db trial mpl st :
  let o := mpl_body i db trial mpl st in
  ∃ row snapshot rest,
    row_of trial mpl row ∧ last snapshot = Some row ∧
    view bracket_step (emitted o) ++ rest =
      [MAppend i row; MPostMpl i trial mpl; MExport i snapshot] ∧
    (result o = Ok tt → rest = []).
Proof.
  apply (body_milestones bracket_step i db trial mpl [] [MPostMpl i trial mpl]);
    try done.
  - apply silent_measure_bracket.
  - intros st'. exists []. by rewrite view_post_mpl_bracket.
Qed.

(** The same with the callbacks of [POST_MPL]: the row is appended, the
    dispatch is entered, the registered callbacks are called in order,
    and then the statistics are exported. *)
Lemma body_bracket_calls i db trial mpl st :
  let o := mpl_body i db trial mpl st in
  ∃ row snapshot rest,
    row_of trial mpl row ∧ last snapshot = Some row ∧
    view bracket_call_step (emitted o) ++ rest =
      [] ++ [MAppend i row] ++
      (MPostMpl i trial mpl ::
       ((λ h, MCallback h (mpl_args i trial mpl)) <$> registered hooks "POST_MPL")) ++
      [MExport i snapshot] ∧
    (result o = Ok tt → rest = []).
Proof.
  apply (body_milestones bracket_call_step i db trial mpl []
           (MPostMpl i trial mpl ::
            ((λ h, MCallback h (mpl_args i trial mpl))
               <$> registered hooks "POST_MPL"))); try done.
  - by apply silent_measure.
  - intros st'.
    destruct (view_run_hooks_calls E hooks bracket_call_step "POST_MPL"
                [AInt mpl; AInt trial; ADb i]
                (λ h, MCallback h (mpl_args i trial mpl)) st')
      as (n & _ & Hview & Hn); [done|].
    exists ((λ h, MCallback h (mpl_args i trial mpl))
              <$> drop n (registered hooks "POST_MPL")).
    split.
    + rewrite Hview, <- app_assoc, <- fmap_app, take_drop. done.
    + intros Hres. rewrite (Hn Hres), drop_all. done.
Qed.

Lemma body_bracket i db trial mpl :
  in_iterations bracket_step bracket_unit (mpl_body i db trial mpl).
Proof.
  apply (body_in_iterations _ _ i db trial mpl [] [MPostMpl i trial mpl]);
    try done.
  - apply silent_measure_bracket.
  - intros st'. apply view_post_mpl_bracket.
  - intros row snapshot Hrow Hlast. by exists i, trial, mpl, row, snapshot.
Qed.

Lemma run_bracket fuel dbs :
  in_iterations bracket_step bracket_unit (run fuel dbs).
Proof. iterate body_bracket. Qed.

(** C9. In every executed MPL iteration the [POST_MPL] hook is dispatched
    after the row of the iteration has been appended to the target's
    statistics and before the statistics are exported. The steps of the
    body are, in this order: the row is appended, the dispatch is entered,
    every callback registered at [POST_MPL] is called, in registration
    order and with the MPL value, the trial and the target, and the
    statistics, the row last among them, are exported; each step occurs at
    most once, and all of them when the body returns. Over a whole run
    appending, dispatching and exporting form whole iterations one after
    the other, followed by the beginning of one more only when the run
    does not return. *)
Theorem post_mpl_between_append_and_export fuel :
  (∀ i db trial mpl st,
     let o := mpl_body i db trial mpl st in
     ∃ row snapshot rest,
       row_of trial mpl row ∧ last snapshot = Some row ∧
       view bracket_call_step (emitted o) ++ rest =
         [MAppend i row; MPostMpl i trial mpl] ++
         ((λ h, MCallback h [AInt mpl; AInt trial; ADb i])
            <$> registered hooks "POST_MPL") ++
         [MExport i snapshot] ∧
       (result o = Ok tt → rest = [])) ∧
  (∀ dbs st,
     let o := run fuel dbs st in
     (iterations bracket_unit (view bracket_step (emitted o)) ∨
      cut_short bracket_unit (view bracket_step (emitted o))) ∧
     (result o = Ok tt →
      iterations bracket_unit (view bracket_step (emitted o)))).
Proof.
  split.
  - apply body_bracket_calls.
  - intros dbs st o. destruct (run_bracket fuel dbs st) as [Hany Hok].
    split; [done|]. intros Hr. apply Hok. subst o. by rewrite Hr.
Qed.

End RunProps.

(** The run of one target with one trial and one MPL value, in an outside
    where the benchmark process cannot be started: the target is started
    on, the error leaves the run, and [cleanup] is never called. *)
Lemma cleanup_skipped_when_trials_raise :
  result Sample.failed_run = Raised (Exn "OSError" "ycsb") ∧
  view started_on (emitted Sample.failed_run) = [0%nat] ∧
  view cleanup_of (emitted Sample.failed_run) = [] ∧
  ¬ cleanup_always_runs.
Proof.
  assert (Hstarted : view started_on (emitted Sample.failed_run) = [0%nat])
    by (vm_compute; reflexivity).
  assert (Hcleanup : view cleanup_of (emitted Sample.failed_run) = [])
    by (vm_compute; reflexivity).
  split; [vm_compute; reflexivity|]. split; [exact Hstarted|].
  split; [exact Hcleanup|].
  intros Hclaim.
  specialize (Hclaim Sample.no_process Sample.STAT_REGEXPS Sample.TRACKED_STATS ∅
                (Sample.int_attr "trials") (Sample.int_attr "min_mpl")
                (Sample.int_attr "max_mpl") (Sample.int_attr "inc_mpl")
                (Sample.bool_attr "clean_data") 2%nat
                [Sample.target 1 1 1 1 true] Sample.start 0%nat).
  cbv zeta in Hclaim.
  change (run Sample.no_process _ _ _ _ _ _ _ _ _ _ _) with Sample.failed_run
    in Hclaim.
  rewrite Hstarted, Hcleanup in Hclaim.
  specialize (Hclaim ltac:(left)). discriminate Hclaim.
Qed.

Lemma cleanup_once_after_returning_trials_witness :
  result (Sample.run_with Sample.quiet ∅ 2 [Sample.target 1 1 1 1 true]
            Sample.start) = Ok tt ∧
  view cleanup_of
    (emitted (Sample.run_with Sample.quiet ∅ 2 [Sample.target 1 1 1 1 true]
                Sample.start)) = [0%nat].
Proof.
  destruct (cleanup_once_after_returning_trials Sample.quiet Sample.STAT_REGEXPS
              Sample.TRACKED_STATS ∅ (Sample.int_attr "trials")
              (Sample.int_attr "min_mpl") (Sample.int_attr "max_mpl")
              (Sample.int_attr "inc_mpl") (Sample.bool_attr "clean_data") 2)
    as [_ Hrun].
  destruct (Hrun [Sample.target 1 1 1 1 true] Sample.start) as (n & _ & Hv & Hn).
  assert (Hres : result (Sample.run_with Sample.quiet ∅ 2
                           [Sample.target 1 1 1 1 true] Sample.start) = Ok tt)
    by (vm_compute; reflexivity).
  split; [exact Hres|].
  unfold Sample.run_with. rewrite Hv, (Hn Hres). reflexivity.
Defined.

Lemma export_once_per_pair_after_append_witness :
  result (Sample.run_with Sample.quiet ∅ 3 [Sample.target 2 1 3 2 true]
            Sample.start) = Ok tt ∧
  iterations durable_unit
    (view durability_step
       (emitted (Sample.run_with Sample.quiet ∅ 3 [Sample.target 2 1 3 2 true]
                   Sample.start))) ∧
  view exported_for
    (emitted (Sample.run_with Sample.quiet ∅ 3 [Sample.target 2 1 3 2 true]
                Sample.start)) =
    [(0%nat, 1, 1); (0%nat, 1, 3); (0%nat, 2, 1); (0%nat, 2, 3)].
Proof.
  destruct (export_once_per_pair_after_append Sample.quiet Sample.STAT_REGEXPS
              Sample.TRACKED_STATS ∅ (Sample.int_attr "trials")
              (Sample.int_attr "min_mpl") (Sample.int_attr "max_mpl")
              (Sample.int_attr "inc_mpl") (Sample.bool_attr "clean_data") 3)
    as [_ Hrun].
  destruct (Hrun [Sample.target 2 1 3 2 true] Sample.start) as (_ & _ & Hok).
  assert (Hres : result (Sample.run_with Sample.quiet ∅ 3
                           [Sample.target 2 1 3 2 true] Sample.start) = Ok tt)
    by (vm_compute; reflexivity).
  destruct (Hok Hres) as [Hiter Hpairs].
  split; [exact Hres|]. split; [exact Hiter|].
  unfold Sample.run_with. rewrite Hpairs. vm_compute. reflexivity.
Defined.

Lemma post_mpl_between_append_and_export_witness :
  let hooks : gmap string (list nat) := {[ "POST_MPL" := [9; 4]%nat ]} in
  let db := Sample.target 2 1 3 2 true in
  let body :=
    mpl_body Sample.quiet Sample.STAT_REGEXPS Sample.TRACKED_STATS hooks
      (Sample.bool_attr "clean_data") 0 db 1 3 Sample.start in
  let o := Sample.run_with Sample.quiet hooks 3 [db] Sample.start in
  result body = Ok tt ∧
  (∃ row snapshot,
     row_of 1 3 row ∧ last snapshot = Some row ∧
     view bracket_call_step (emitted body) =
       [MAppend 0 row; MPostMpl 0 1 3;
        MCallback 9 [AInt 3; AInt 1; ADb 0]; MCallback 4 [AInt 3; AInt 1; ADb 0];
        MExport 0 snapshot]) ∧
  result o = Ok tt ∧
  iterations bracket_unit (view bracket_step (emitted o)) ∧
  length (view bracket_step (emitted o)) = 12%nat.
Proof.
  intros hooks db body o.
  destruct (post_mpl_between_append_and_export Sample.quiet Sample.STAT_REGEXPS
              Sample.TRACKED_STATS hooks (Sample.int_attr "trials")
              (Sample.int_attr "min_mpl") (Sample.int_attr "max_mpl")
              (Sample.int_attr "inc_mpl") (Sample.bool_attr "clean_data") 3)
    as [Hbody Hrun].
  assert (Hbres : result body = Ok tt) by (vm_compute; reflexivity).
  assert (Hres : result o = Ok tt) by (vm_compute; reflexivity).
  split; [exact Hbres|]. split.
  - destruct (Hbody 0%nat db 1 3 Sample.start)
      as (row & snapshot & rest & Hrow & Hlast & Hview & Hwhole).
    fold body in Hview, Hwhole.
    rewrite (Hwhole Hbres), app_nil_r in Hview.
    exists row, snapshot. split; [exact Hrow|]. split; [exact Hlast|].
    exact Hview.
  - destruct (Hrun [db] Sample.start) as [_ Hok].
    split; [exact Hres|]. split; [exact (Hok Hres)|].
    vm_compute. reflexivity.
Defined.
